(** * The SCIFIO ImageIO bridge (itkSCIFIOImageIO.cxx): model and properties

    A shallow embedding of the host side of the bridge between ITK and the
    SCIFIO Java worker: string conversion helpers, the metadata codec of
    [ReadImageInformation], the process supervisor ([CreateJavaProcess],
    [DestroyJavaProcess]), the byte-streaming loop of [Read] and the command
    encoding of [Write]; then the wait for a text frame, the probes
    [CanReadFile] and [CanWriteFile], the command of [Read], the plane
    handshake of [Write] and the setters that [ReadImageInformation] calls.

    Conventions.
    - [std::string] is [list ascii]; a position is a [nat]; [npos]
      (the largest [size_t]) is [None].  Where the source computes with
      [npos], the wrap-around of [size_t] is written out at that place.
    - A C++ exception is the [Thrown] alternative of [outcome].
    - The code is modelled in its POSIX configuration (the branches taken
      when [WIN32] is not defined): the line terminator is one linefeed.
      The metadata loop is modelled in its [WIN32] configuration as well
      (module [WIN32]), where the two configurations differ in more than
      the terminator.
    - The worker process, its pipes and the kwsys process library are the
      environment: what they answer is an argument of the model. *)

From Stdlib Require Import ZArith Ascii String Lia DecimalString DecimalPos.
From stdpp Require Import gmap strings list fin_maps.
From Equations Require Import Equations.

Open Scope Z_scope.
Open Scope nat_scope.

(** ** Characters and strings *)

Definition LF : ascii := "010"%char.
Definition TAB : ascii := "009"%char.
Definition BSL : ascii := "\"%char.

Definition str (s : string) : list ascii := list_ascii_of_string s.

(** First position of [c] in [s], counted from the head. *)
Fixpoint index_of (c : ascii) (s : list ascii) : option nat :=
  match s with
  | [] => None
  | x :: r => if decide (x = c) then Some 0 else S <$> index_of c r
  end.

(** [s.find(c, pos)]: the first position at or after [pos] that holds [c];
    [None] is [npos]. *)
Definition find (s : list ascii) (c : ascii) (pos : nat) : option nat :=
  (λ i, pos + i) <$> index_of c (drop pos s).

(** [s.substr(pos, n)], for [pos <= s.size()]: at most [n] characters from
    [pos] on.  (For [pos > s.size()] the library throws; no caller below
    gets there.) *)
Definition substr (s : list ascii) (pos n : nat) : list ascii :=
  take n (drop pos s).

(** [s.substr(pos, npos - pos)]: the count is larger than what is left, so
    the result runs to the end of [s]. *)
Definition substr_to_end (s : list ascii) (pos : nat) : list ascii :=
  drop pos s.

(** ** Outcomes: a returned value or a thrown exception *)

Inductive outcome (A : Type) : Type :=
  | Returned (a : A)
  | Thrown (msg : list ascii).
Arguments Returned {A} a.
Arguments Thrown {A} msg.

#[global] Instance outcome_ret : MRet outcome := λ A a, Returned a.
#[global] Instance outcome_bind : MBind outcome := λ A B k m,
  match m with
  | Returned a => k a
  | Thrown msg => Thrown msg
  end.

Definition is_thrown {A : Type} (m : outcome A) : bool :=
  match m with Thrown _ => true | Returned _ => false end.

(** ** Formatted extraction from a string stream

    The part of [std::istream] the bridge uses, in the classic locale with
    the default flags ([skipws], base ten).  An extraction answers the value
    now held by the target variable, the stream's fail bit, and the
    characters left unread. *)

Definition isspace (c : ascii) : bool :=
  let n := nat_of_ascii c in
  (n =? 32) || ((9 <=? n) && (n <=? 13)).

Definition isdigit (c : ascii) : bool :=
  let n := nat_of_ascii c in (48 <=? n) && (n <=? 57).

Fixpoint skipws (s : list ascii) : list ascii :=
  match s with
  | c :: r => if isspace c then skipws r else s
  | [] => []
  end.

(** The longest prefix of digits, and what follows it. *)
Fixpoint span_digits (s : list ascii) : list ascii * list ascii :=
  match s with
  | c :: r =>
      if isdigit c then let '(ds, rest) := span_digits r in (c :: ds, rest)
      else ([], s)
  | [] => ([], [])
  end.

Definition digits_value (ds : list ascii) : Z :=
  fold_left (λ acc c, (10 * acc + Z.of_nat (nat_of_ascii c - 48))%Z) ds 0%Z.

(** [num_get] for a signed integer type of range [lo..hi]: an optional sign,
    then digits.  No digit: zero is stored and the fail bit set.  Out of
    range: the nearest bound is stored and the fail bit set. *)
Definition num_get_integer (lo hi : Z) (s : list ascii)
  : Z * bool * list ascii :=
  let '(neg, s1) :=
    match s with
    | c :: r =>
        if decide (c = "-"%char) then (true, r)
        else if decide (c = "+"%char) then (false, r)
        else (false, s)
    | [] => (false, s)
    end in
  let '(ds, rest) := span_digits s1 in
  match ds with
  | [] => (0%Z, true, rest)
  | _ :: _ =>
      let v := if neg : bool then (- digits_value ds)%Z else digits_value ds in
      if (v <? lo)%Z then (lo, true, rest)
      else if (hi <? v)%Z then (hi, true, rest)
      else (v, false, rest)
  end.

Definition LONG_MIN : Z := (- 2 ^ 63)%Z.
Definition LONG_MAX : Z := (2 ^ 63 - 1)%Z.
Definition INT_MIN : Z := (- 2 ^ 31)%Z.
Definition INT_MAX : Z := (2 ^ 31 - 1)%Z.
Definition SHRT_MIN : Z := (- 2 ^ 15)%Z.
Definition SHRT_MAX : Z := (2 ^ 15 - 1)%Z.

(** [is >> x] for an integer [x] holding [cur]: the sentry skips white space
    and fails at the end of the stream, leaving [x] as it was. *)
Definition extract_integer (lo hi : Z) (cur : Z) (s : list ascii)
  : Z * bool * list ascii :=
  match skipws s with
  | [] => (cur, true, [])
  | _ :: _ => num_get_integer lo hi (skipws s)
  end.

(** [is >> b] for a [bool] holding [cur], without [boolalpha]: the field is
    read as a [long]; 0 stores [false], 1 stores [true], any other number
    stores [true] and sets the fail bit. *)
Definition extract_bool_numeric (cur : bool) (s : list ascii)
  : bool * bool * list ascii :=
  match skipws s with
  | [] => (cur, true, [])
  | _ :: _ =>
      let '(l, failed, rest) := num_get_integer LONG_MIN LONG_MAX (skipws s) in
      if (l =? 0)%Z then (false, failed, rest)
      else if (l =? 1)%Z then (true, failed, rest)
      else (true, true, rest)
  end.

Fixpoint starts_with (p s : list ascii) : bool :=
  match p, s with
  | [], _ => true
  | a :: p', b :: s' => bool_decide (a = b) && starts_with p' s'
  | _ :: _, [] => false
  end.

(** [is >> std::boolalpha >> b]: the field must be the name [true] or the
    name [false]; otherwise [false] is stored and the fail bit set. *)
Definition extract_bool_alpha (cur : bool) (s : list ascii)
  : bool * bool * list ascii :=
  match skipws s with
  | [] => (cur, true, [])
  | _ :: _ =>
      if starts_with (str "true") (skipws s) then (true, false, drop 4 (skipws s))
      else if starts_with (str "false") (skipws s) then (false, false, drop 5 (skipws s))
      else (false, true, skipws s)
  end.

(** ** [valueOfString] and [toString] *)

Definition conversion_error (s : list ascii) : list ascii :=
  str "SCIFIOImageIO: error while converting: " ++ s.

(** The primary template, at an integer type of range [lo..hi]. *)
Definition valueOfString_integer (lo hi : Z) (s : list ascii) : outcome Z :=
  let '(res, failed, _) := extract_integer lo hi 0%Z s in
  if failed : bool then Thrown (conversion_error s) else Returned res.

Definition valueOfString_long := valueOfString_integer LONG_MIN LONG_MAX.
Definition valueOfString_int := valueOfString_integer INT_MIN INT_MAX.
Definition valueOfString_short := valueOfString_integer SHRT_MIN SHRT_MAX.

(** The two attempts of the [bool] specialisation, each with the value it
    leaves in [res] and whether the stream failed. *)
Definition bool_numeric_attempt (s : list ascii) : bool * bool * list ascii :=
  extract_bool_numeric false s.

Definition bool_alpha_attempt (s : list ascii) : bool * bool * list ascii :=
  let '(res, _, rest) := bool_numeric_attempt s in
  extract_bool_alpha res rest.

(** The specialisation [valueOfString<bool>]. *)
Definition valueOfString_bool (s : list ascii) : outcome bool :=
  let '(res, failed, _) := bool_numeric_attempt s in
  if failed : bool then
    let '(res', _, _) := bool_alpha_attempt s in Returned res'
  else Returned res.

(** [toString] at an integer type: the decimal digits, with a minus sign
    for a negative number. *)
Definition toString (z : Z) : list ascii :=
  str (NilEmpty.string_of_int (Z.to_int z)).

(** ** The metadata codec of [ReadImageInformation] *)

(** Keeps the equation of a case analysis in scope of its branches. *)
Definition inspect {A : Type} (x : A) : {y : A | x = y} := exist _ x eq_refl.

(** What one round of the unescape loop appends to [tmp] when a backslash
    stands at [lp1]: the text before it, then the character its escape
    stands for, if any. *)
Definition unescape_append (value : list ascii) (lp0 lp1 : nat)
    (tmp : list ascii) : list ascii :=
  let tmp := tmp ++ substr value lp0 (lp1 - lp0) in
  if decide (lp1 < length value - 1) then
    match value !! (lp1 + 1) with
    | Some c =>
        if decide (c = BSL) then tmp ++ [BSL]
        else if decide (c = "n"%char) then tmp ++ [LF]
        else tmp
    | None => tmp
    end
  else tmp.

(** The loop [while( lp0 < value.size() )] that unescapes a value line. *)
Equations? unescape_loop (value : list ascii) (lp0 : nat) (tmp : list ascii)
  : list ascii by wf (length value - lp0) lt :=
unescape_loop value lp0 tmp with inspect (lp0 <? length value) := {
  | exist _ false _ => tmp
  | exist _ true Hlt with inspect (find value BSL lp0) := {
    | exist _ None _ =>
        unescape_loop value (length value)
          (tmp ++ substr value lp0 (length value - lp0))
    | exist _ (Some lp1) Hfind =>
        unescape_loop value (lp1 + 2) (unescape_append value lp0 lp1 tmp)
    } }.
Proof.
  all: apply Nat.ltb_lt in Hlt.
  - unfold find in Hfind.
    destruct (index_of BSL (drop lp0 value)); inversion Hfind; lia.
  - lia.
Qed.

Definition unescape (value : list ascii) : list ascii :=
  unescape_loop value 0 [].

(** The escape rules as the specification words them, by cases on the head
    of the value. *)
Fixpoint unescape_spec (value : list ascii) : list ascii :=
  match value with
  | [] => []
  | c :: r =>
      if decide (c = BSL) then
        match r with
        | [] => []
        | e :: r' =>
            if decide (e = BSL) then BSL :: unescape_spec r'
            else if decide (e = "n"%char) then LF :: unescape_spec r'
            else unescape_spec r'
        end
      else c :: unescape_spec r
  end.

(** Whether a value, read from left to right, stops in the middle of an
    escape: its last character is a backslash that no backslash before it
    escapes. *)
Fixpoint ends_in_escape (value : list ascii) : bool :=
  match value with
  | [] => false
  | c :: r =>
      if decide (c = BSL) then
        match r with
        | [] => true
        | _ :: r' => ends_in_escape r'
        end
      else ends_in_escape r
  end.

(** The metadata dictionary, restricted to its string entries. *)
Abbreviation MetaDataDictionary := (gmap (list ascii) (list ascii)).

Definition HasKey (dict : MetaDataDictionary) (key : list ascii) : bool :=
  bool_decide (is_Some (dict !! key)).

Definition EncapsulateMetaData (dict : MetaDataDictionary)
    (key value : list ascii) : MetaDataDictionary :=
  <[key := value]> dict.

(** [ExposeMetaData<std::string>( dict, key, tmp )]: [tmp] keeps its value
    when the key is missing. *)
Definition ExposeMetaData (dict : MetaDataDictionary) (key tmp : list ascii)
  : list ascii :=
  default tmp (dict !! key).

(** [imgInfo.substr( p0, p1-p0 )] for the [p1] that [find] answered; with
    [npos] the count wraps to more than what is left. *)
Definition line_at (imgInfo : list ascii) (p0 : nat) (p1 : option nat)
  : list ascii :=
  match p1 with
  | Some p => substr imgInfo p0 (p - p0)
  | None => substr_to_end imgInfo p0
  end.

(** [p1+1]; [npos+1] wraps to 0. *)
Definition next_line (p1 : option nat) : nat :=
  match p1 with
  | Some p => p + 1
  | None => 0
  end.

(** One round of the loop [while( p0 < imgInfo.size() )]. *)
Definition parse_iteration (imgInfo : list ascii) (p0 : nat)
    (dict : MetaDataDictionary) : nat * MetaDataDictionary :=
  let p1 := find imgInfo LF p0 in
  let line := line_at imgInfo p0 p1 in
  if decide (line = []) then (next_line p1, dict)
  else
    let key := line in
    let p0 := next_line p1 in
    let p1 := find imgInfo LF p0 in
    let line := line_at imgInfo p0 p1 in
    if decide (line = []) then (next_line p1, dict)
    else
      let value := line in
      let dict :=
        if HasKey dict key then dict
        else EncapsulateMetaData dict key (unescape value) in
      (next_line p1, dict).

(** The loop itself.  It need not end (a frame without a final linefeed
    sends [p0] back to 0), so it runs on fuel: [None] is "still running". *)
Fixpoint parse_loop (fuel : nat) (imgInfo : list ascii) (p0 : nat)
    (dict : MetaDataDictionary) : option MetaDataDictionary :=
  if p0 <? length imgInfo then
    match fuel with
    | 0 => None
    | S fuel' =>
        let '(p0', dict') := parse_iteration imgInfo p0 dict in
        parse_loop fuel' imgInfo p0' dict'
    end
  else Some dict.

(** Filling the dictionary from a frame, from the dictionary as it stands. *)
Definition fill_dictionary (fuel : nat) (imgInfo : list ascii)
    (dict : MetaDataDictionary) : option MetaDataDictionary :=
  parse_loop fuel imgInfo 0 dict.

(** The same loop as compiled with [WIN32] defined: a line ends with a
    carriage return and a linefeed, and the test on the value line is
    [line == "\r"]. *)
Module WIN32.

Definition CR : ascii := "013"%char.

(** First position at which [pat] starts in [s], counted from the head. *)
Fixpoint index_of_string (pat s : list ascii) : option nat :=
  if starts_with pat s then Some 0
  else
    match s with
    | [] => None
    | _ :: r => S <$> index_of_string pat r
    end.

(** [s.find(pat, pos)] for a [pat] that is not empty: the first position at
    or after [pos] where [pat] starts; [None] is [npos]. *)
Definition find (s : list ascii) (pat : list ascii) (pos : nat) : option nat :=
  (λ i, pos + i) <$> index_of_string pat (drop pos s).

(** [p1+2]; [npos+2] wraps to 1. *)
Definition next_line (p1 : option nat) : nat :=
  match p1 with
  | Some p => p + 2
  | None => 1
  end.

(** One round of the loop [while( p0 < imgInfo.size() )]. *)
Definition parse_iteration (imgInfo : list ascii) (p0 : nat)
    (dict : MetaDataDictionary) : nat * MetaDataDictionary :=
  let p1 := find imgInfo [CR; LF] p0 in
  let line := line_at imgInfo p0 p1 in
  if decide (line = []) then (next_line p1, dict)
  else
    let key := line in
    let p0 := next_line p1 in
    let p1 := find imgInfo [CR; LF] p0 in
    let line := line_at imgInfo p0 p1 in
    if decide (line = [CR]) then (next_line p1, dict)
    else
      let value := line in
      let dict :=
        if HasKey dict key then dict
        else EncapsulateMetaData dict key (unescape value) in
      (next_line p1, dict).

Fixpoint parse_loop (fuel : nat) (imgInfo : list ascii) (p0 : nat)
    (dict : MetaDataDictionary) : option MetaDataDictionary :=
  if p0 <? length imgInfo then
    match fuel with
    | 0 => None
    | S fuel' =>
        let '(p0', dict') := parse_iteration imgInfo p0 dict in
        parse_loop fuel' imgInfo p0' dict'
    end
  else Some dict.

Definition fill_dictionary (fuel : nat) (imgInfo : list ascii)
    (dict : MetaDataDictionary) : option MetaDataDictionary :=
  parse_loop fuel imgInfo 0 dict.

(** The given lines, each ended by a carriage return and a linefeed, then
    the empty line that closes the frame. *)
Definition frame_of_lines (lines : list (list ascii)) : list ascii :=
  concat (map (λ l, l ++ [CR; LF]) lines) ++ [CR; LF].

End WIN32.

(** The given lines, each ended by a linefeed. *)
Definition text_of_lines (lines : list (list ascii)) : list ascii :=
  concat (map (λ l, l ++ [LF]) lines).

(** A frame: its lines, then the empty line that closes it. *)
Definition frame_of_lines (lines : list (list ascii)) : list ascii :=
  text_of_lines lines ++ [LF].

(** The key/value pairs of a frame as the loop forms them: an empty line
    where a key is expected is skipped; a key whose next line is empty is
    dropped with it; otherwise the line after a key is its value. *)
Fixpoint pairs_of_lines (lines : list (list ascii))
  : list (list ascii * list ascii) :=
  match lines with
  | [] => []
  | key :: rest =>
      if decide (key = []) then pairs_of_lines rest
      else
        match rest with
        | [] => []
        | value :: rest' =>
            if decide (value = []) then pairs_of_lines rest'
            else (key, value) :: pairs_of_lines rest'
        end
  end.

(** Storing one pair: nothing happens when the key is already there. *)
Definition store_pair (dict : MetaDataDictionary)
    (kv : list ascii * list ascii) : MetaDataDictionary :=
  if HasKey dict kv.1 then dict
  else EncapsulateMetaData dict kv.1 (unescape kv.2).

Definition store_pairs (pairs : list (list ascii * list ascii))
    (dict : MetaDataDictionary) : MetaDataDictionary :=
  fold_left store_pair pairs dict.

(** The value of the first pair with the given key. *)
Fixpoint first_value (key : list ascii)
    (pairs : list (list ascii * list ascii)) : option (list ascii) :=
  match pairs with
  | [] => None
  | (k, v) :: rest => if decide (k = key) then Some v else first_value key rest
  end.

(** [GetTypedMetaData<T>( dict, key )]. *)
Definition GetTypedMetaData_bool (dict : MetaDataDictionary)
    (key : list ascii) : outcome bool :=
  valueOfString_bool (ExposeMetaData dict key []).

Definition GetTypedMetaData_int (dict : MetaDataDictionary)
    (key : list ascii) : outcome Z :=
  valueOfString_int (ExposeMetaData dict key []).

Definition GetTypedMetaData_short (dict : MetaDataDictionary)
    (key : list ascii) : outcome Z :=
  valueOfString_short (ExposeMetaData dict key []).

Definition GetTypedMetaData_long (dict : MetaDataDictionary)
    (key : list ascii) : outcome Z :=
  valueOfString_long (ExposeMetaData dict key []).


(** ** The process supervisor *)

(** The states of a kwsys process ([itksysProcess_State_...]). *)
Inductive ProcessState : Type :=
  | State_Starting
  | State_Error
  | State_Exception
  | State_Executing
  | State_Exited
  | State_Expired
  | State_Killed
  | State_Disowned.

#[global] Instance ProcessState_eq_dec : EqDecision ProcessState.
Proof. solve_decision. Defined.

(** What the bridge asks of the system and of kwsys, in the order asked. *)
Inductive call : Type :=
  | Call_pipe
  | Call_close_write_end
  | Process_New
  | Process_SetCommand
  | Process_SetPipeNative
  | Process_Execute
  | Process_Kill
  | Process_WaitForExit
  | Process_Delete.

#[global] Instance call_eq_dec : EqDecision call.
Proof. solve_decision. Defined.

(** The write end [m_Pipe[1]] of the pipe to the worker's standard input. *)
Inductive pipe_end : Type :=
  | Pipe_unset
  | Pipe_open
  | Pipe_closed.

(** The members of the bridge object that the supervisor owns.  [m_Process]
    is [None] for [NULL]; a handle is told by the state kwsys reports for
    it. *)
Record SCIFIOImageIO : Type := mkSCIFIOImageIO {
  m_Process : option ProcessState;
  m_Pipe_1 : pipe_end
}.

(** After the constructor: [m_Process = NULL], no pipe yet. *)
Definition constructed : SCIFIOImageIO :=
  {| m_Process := None; m_Pipe_1 := Pipe_unset |}.

(** What kwsys reports once [itksysProcess_Execute] has returned. *)
Record spawn_report : Type := mkSpawnReport {
  spawn_state : ProcessState;
  exit_value : Z;
  error_string : list ascii;
  exception_string : list ascii
}.

Definition DestroyJavaProcess (io : SCIFIOImageIO)
  : list call * SCIFIOImageIO :=
  match m_Process io with
  | None => ([], io)
  | Some state =>
      let kill :=
        if decide (state = State_Executing)
        then [Process_Kill; Process_WaitForExit] else [] in
      (kill ++ [Process_Delete; Call_close_write_end],
       {| m_Process := None; m_Pipe_1 := Pipe_closed |})
  end.

(** The [switch] on the state found after the spawn.  The starting state
    has no case of its own (it is commented out in the source) and falls
    to [default], the "unknown state" error. *)
Definition check_spawned (r : spawn_report) : outcome unit :=
  match spawn_state r with
  | State_Exited =>
      Thrown (str "SCIFIOImageIO: ITKReadImageInformation exited with return value: "
              ++ toString (exit_value r))
  | State_Error =>
      Thrown (str "SCIFIOImageIO: ITKReadImageInformation error:"
              ++ [LF] ++ error_string r)
  | State_Exception =>
      Thrown (str "SCIFIOImageIO: ITKReadImageInformation exception:"
              ++ [LF] ++ exception_string r)
  | State_Executing => Returned ()
  | State_Expired =>
      Thrown (str "SCIFIOImageIO: internal error: ITKReadImageInformation expired.")
  | State_Killed =>
      Thrown (str "SCIFIOImageIO: internal error: ITKReadImageInformation killed.")
  | State_Disowned =>
      Thrown (str "SCIFIOImageIO: internal error: ITKReadImageInformation disowned.")
  | State_Starting =>
      Thrown (str "SCIFIOImageIO: internal error: ITKReadImageInformation is in unknown state.")
  end.

Definition spawn_calls : list call :=
  [Call_pipe; Process_New; Process_SetCommand; Process_SetPipeNative;
   Process_Execute].

(** [CreateJavaProcess], where [r] is what the spawn will lead to, should
    the call spawn. *)
Definition CreateJavaProcess (r : spawn_report) (io : SCIFIOImageIO)
  : list call * outcome unit * SCIFIOImageIO :=
  match m_Process io with
  | Some State_Executing => ([], Returned (), io)
  | _ =>
      let '(destroyed, io) :=
        match m_Process io with
        | Some _ => DestroyJavaProcess io
        | None => ([], io)
        end in
      let io := {| m_Process := Some (spawn_state r); m_Pipe_1 := Pipe_open |} in
      (destroyed ++ spawn_calls, check_spawned r, io)
  end.

(** A handle is live when its process is executing. *)
Definition live (io : SCIFIOImageIO) : bool :=
  bool_decide (m_Process io = Some State_Executing).

(** ** The transfer loop of [Read] *)

(** What [itksysProcess_WaitForData] answers: data of the worker's standard
    output, data of its standard error, or anything else (no more data, a
    time-out). *)
Inductive pipe_data : Type :=
  | Pipe_STDOUT (pipedata : list ascii)
  | Pipe_STDERR (pipedata : list ascii)
  | Pipe_other.

Inductive read_result : Type :=
  | Read_done (data errorMessage : list ascii)
  | Read_thrown (msg : list ascii)
  | Read_waiting.

(** [memcpy( data + pos, pipedata, pipedatalength )] on the buffer [data].
    Past the end of the buffer the copy writes on: the list grows. *)
Definition memcpy (data : list ascii) (pos : nat) (pipedata : list ascii)
  : list ascii :=
  take pos data ++ pipedata ++ drop (pos + length pipedata) data.

(** The loop [while( pos < byteCount )], on the answers [pipe] that the
    worker gives one after the other.  When they run out the loop is still
    waiting.  On any answer but data the source calls [DestroyJavaProcess]
    and throws. *)
Fixpoint Read_loop (pipe : list pipe_data) (data : list ascii)
    (pos byteCount : nat) (errorMessage : list ascii) : read_result :=
  if pos <? byteCount then
    match pipe with
    | [] => Read_waiting
    | Pipe_STDOUT pipedata :: pipe' =>
        Read_loop pipe' (memcpy data pos pipedata) (pos + length pipedata)
          byteCount errorMessage
    | Pipe_STDERR pipedata :: pipe' =>
        Read_loop pipe' data pos byteCount (errorMessage ++ pipedata)
    | Pipe_other :: _ =>
        Read_thrown (str "SCIFIOImageIO: 'ITKBridgePipes read' exited abnormally. "
                     ++ errorMessage)
    end
  else Read_done data errorMessage.

(** The transfer of [Read]: [byteCount] is the pixel size times the number
    of pixels of the region. *)
Definition Read_transfer (pixelSize numberOfPixels : nat)
    (pipe : list pipe_data) (data : list ascii) : read_result :=
  Read_loop pipe data 0 (pixelSize * numberOfPixels) [].

(** The bytes of the standard-output answers, in order. *)
Definition stdout_bytes (pipe : list pipe_data) : list ascii :=
  concat (map (λ e, match e with Pipe_STDOUT d => d | _ => [] end) pipe).

Definition is_abnormal (e : pipe_data) : bool :=
  match e with Pipe_other => true | _ => false end.

(** ** The command of [Write] *)

(** An [int]: 32 bits, two's complement. *)
Definition to_int (z : Z) : Z := ((z + 2 ^ 31) mod 2 ^ 32 - 2 ^ 31)%Z.

Record ImageIORegion : Type := mkImageIORegion {
  m_ImageDimension : nat;
  m_Index : list Z;
  m_Size : list Z
}.

Definition GetIndex (region : ImageIORegion) (d : nat) : Z :=
  nth d (m_Index region) 0%Z.
Definition GetSize (region : ImageIORegion) (d : nat) : Z :=
  nth d (m_Size region) 0%Z.

Definition zIndex : nat := 2.
Definition cIndex : nat := 3.
Definition tIndex : nat := 4.

(** The body of [for (int dim = 0; dim < 5; dim++)]: the state is the
    command so far and [numPlanes]. *)
Definition Write_axis (region : ImageIORegion) (regionDim : nat)
    (st : list ascii * Z) (dim : nat) : list ascii * Z :=
  let '(command, numPlanes) := st in
  if dim <? regionDim then
    let index := to_int (GetIndex region dim) in
    let size := to_int (GetSize region dim) in
    let command := command ++ toString index ++ [TAB] ++ toString size ++ [TAB] in
    if (dim =? cIndex) || (dim =? zIndex) || (dim =? tIndex)
    then (command, to_int (numPlanes * to_int (size - index)))
    else (command, numPlanes)
  else
    (command ++ toString 0 ++ [TAB] ++ toString 1 ++ [TAB], numPlanes).

Definition Write_axes (region : ImageIORegion) (command : list ascii)
  : list ascii * Z :=
  fold_left (Write_axis region (m_ImageDimension region)) (seq 0 5)
    (command, 1%Z).

Definition numPlanes (region : ImageIORegion) : Z :=
  snd (Write_axes region []).

(** How often the body of [for (int i = 0; i < numPlanes; i++)] runs when
    every acknowledgement arrives. *)
Definition planes_driven (region : ImageIORegion) : nat :=
  Z.to_nat (numPlanes region).

(** The extent of the region on axis [d]; 1 beyond its dimensions. *)
Definition extent (region : ImageIORegion) (d : nat) : Z :=
  if d <? m_ImageDimension region then GetSize region d else 1%Z.

(** The product of the extents on the axes beyond Y. *)
Definition planes_of_extents (region : ImageIORegion) : Z :=
  (extent region 2 * extent region 3 * extent region 4)%Z.

(** The body of [for(int i = 0; i < LUTLength; i++)], [n] rounds from [i]
    on. *)
Fixpoint Write_lut_entries (dict : MetaDataDictionary) (LUTBits : Z)
    (i : Z) (n : nat) (command : list ascii) : outcome (list ascii) :=
  match n with
  | 0 => Returned command
  | S n' =>
      if (LUTBits =? 8)%Z then
        rValue ← GetTypedMetaData_int dict (str "LUTR" ++ toString i);
        let command := command ++ toString rValue ++ [TAB] in
        gValue ← GetTypedMetaData_int dict (str "LUTG" ++ toString i);
        let command := command ++ toString gValue ++ [TAB] in
        bValue ← GetTypedMetaData_int dict (str "LUTB" ++ toString i);
        let command := command ++ toString bValue ++ [TAB] in
        Write_lut_entries dict LUTBits (i + 1)%Z n' command
      else
        rValue ← GetTypedMetaData_short dict (str "LUTR" ++ toString i);
        let command := command ++ toString rValue ++ [TAB] in
        gValue ← GetTypedMetaData_short dict (str "LUTG" ++ toString i);
        let command := command ++ toString gValue ++ [TAB] in
        bValue ← GetTypedMetaData_short dict (str "LUTB" ++ toString i);
        let command := command ++ toString bValue ++ [TAB] in
        let command := command ++ [TAB] in
        Write_lut_entries dict LUTBits (i + 1)%Z n' command
  end.

(** The lookup-table part of the command: what [Write] appends from
    [if (useLut)] on, the final linefeed left out. *)
Definition Write_lut (dict : MetaDataDictionary) (command : list ascii)
  : outcome (list ascii) :=
  useLut ← GetTypedMetaData_bool dict (str "UseLUT");
  if useLut : bool then
    let command := command ++ toString 1 ++ [TAB] in
    LUTBits ← GetTypedMetaData_int dict (str "LUTBits");
    let command := command ++ toString LUTBits ++ [TAB] in
    LUTLength ← GetTypedMetaData_int dict (str "LUTLength");
    let command := command ++ toString LUTLength ++ [TAB] in
    Write_lut_entries dict LUTBits 0%Z (Z.to_nat LUTLength) command
  else
    Returned (command ++ toString 0 ++ [TAB]).

(** The fields of a command: the pieces between tabs. *)
Fixpoint fields_from (cur : list ascii) (command : list ascii)
  : list (list ascii) :=
  match command with
  | [] => [cur]
  | c :: r =>
      if decide (c = TAB) then cur :: fields_from [] r
      else fields_from (cur ++ [c]) r
  end.

Definition fields (command : list ascii) : list (list ascii) :=
  fields_from [] command.

Fixpoint tabs (command : list ascii) : nat :=
  match command with
  | [] => 0
  | c :: r => (if decide (c = TAB) then 1 else 0) + tabs r
  end.


(** A region of three dimensions that starts at plane 1 and spans 3 planes. *)
Definition region_from_plane_1 : ImageIORegion :=
  {| m_ImageDimension := 3; m_Index := [0; 0; 1]%Z; m_Size := [4; 4; 3]%Z |}.

(** A dictionary with a lookup table of 16 bits and one entry. *)
Definition lut16 : MetaDataDictionary :=
  list_to_map
    [(str "UseLUT", str "1"); (str "LUTBits", str "16");
     (str "LUTLength", str "1"); (str "LUTR0", str "10");
     (str "LUTG0", str "20"); (str "LUTB0", str "30")].

(** The same table declared with 8 bits. *)
Definition lut8 : MetaDataDictionary :=
  <[str "LUTBits" := str "8"]> lut16.

(** ** Waiting for a text frame

    The loop [while( keepReading )] that [CanReadFile], [CanWriteFile],
    [ReadImageInformation] and [Write] each run on the worker's answers. *)

(** [imgInfo.size() >= 2 && imgInfo.substr( imgInfo.size()-2, 2 ) == "\n\n"]. *)
Definition ends_with_blank_line (imgInfo : list ascii) : bool :=
  (2 <=? length imgInfo)
  && bool_decide (substr imgInfo (length imgInfo - 2) 2 = [LF; LF]).

(** How a wait ends: the frame has arrived (with the diagnostic text read on
    the way and the answers not yet taken), the exchange broke (the caller
    then calls [DestroyJavaProcess] and throws), or the answers ran out and
    the loop still waits. *)
Inductive waited : Type :=
  | Arrived (imgInfo errorMessage : list ascii) (pipe : list pipe_data)
  | Broke (errorMessage : list ascii)
  | Waiting.

Fixpoint wait_frame (pipe : list pipe_data) (imgInfo errorMessage : list ascii)
  : waited :=
  match pipe with
  | [] => Waiting
  | Pipe_STDOUT pipedata :: pipe' =>
      let imgInfo := imgInfo ++ pipedata in
      if ends_with_blank_line imgInfo then Arrived imgInfo errorMessage pipe'
      else wait_frame pipe' imgInfo errorMessage
  | Pipe_STDERR pipedata :: pipe' =>
      wait_frame pipe' imgInfo (errorMessage ++ pipedata)
  | Pipe_other :: _ => Broke errorMessage
  end.

(** The bytes of the standard-error answers, in order. *)
Definition stderr_bytes (pipe : list pipe_data) : list ascii :=
  concat (map (λ e, match e with Pipe_STDERR d => d | _ => [] end) pipe).

(** ** The operations on the worker *)

(** What an operation does to the outside, in order: a call of the
    supervisor, or bytes written to the worker's standard input. *)
Inductive action : Type :=
  | Supervise (c : call)
  | Send (bytes : list ascii).

Definition exited_abnormally (verb : string) (errorMessage : list ascii)
  : list ascii :=
  str "SCIFIOImageIO: 'ITKBridgePipes " ++ str verb
  ++ str "' exited abnormally. " ++ errorMessage.

(** [DestroyJavaProcess] when an exchange breaks; [observed] is the state
    that kwsys reports for the worker at that time. *)
Definition destroy_broken (observed : ProcessState) (io : SCIFIOImageIO)
  : list call * SCIFIOImageIO :=
  DestroyJavaProcess
    {| m_Process := (λ _, observed) <$> m_Process io;
       m_Pipe_1 := m_Pipe_1 io |}.

(** [imgInfo.substr( p0, p1 )] with [p0 = 0] and [p1 = imgInfo.find("\n", p0)]
    held in an [int]: the first line; with [npos] the count is -1 as an
    [int] and the largest [size_t] again as the argument, so the whole
    text.  (For texts shorter than 2^31 characters.) *)
Definition first_line (imgInfo : list ascii) : list ascii :=
  match find imgInfo LF 0 with
  | Some p1 => substr imgInfo 0 p1
  | None => substr_to_end imgInfo 0
  end.

(** The two probes; a result [None] is an operation that still waits for
    the worker. *)
Definition probe (verb : string) (r : spawn_report) (observed : ProcessState)
    (pipe : list pipe_data) (io : SCIFIOImageIO) (name : list ascii)
  : list action * option (outcome bool) * SCIFIOImageIO :=
  let '(calls, started, io) := CreateJavaProcess r io in
  match started with
  | Thrown msg => (map Supervise calls, Some (Thrown msg), io)
  | Returned _ =>
      let command := str verb ++ [TAB] ++ name ++ [LF] in
      let done := map Supervise calls ++ [Send command] in
      match wait_frame pipe [] [] with
      | Arrived imgInfo _ _ =>
          (done, Some (valueOfString_bool (first_line imgInfo)), io)
      | Broke errorMessage =>
          let '(calls, io) := destroy_broken observed io in
          (done ++ map Supervise calls,
           Some (Thrown (exited_abnormally verb errorMessage)), io)
      | Waiting => (done, None, io)
      end
  end.

Definition CanReadFile := probe "canRead".
Definition CanWriteFile := probe "canWrite".

(** The command of [Read]: the file, an index and a size for each dimension
    of the region, and index 0, size 1 for the dimensions up to 5 that the
    region lacks. *)
Definition Read_command (m_FileName : list ascii) (region : ImageIORegion)
  : list ascii :=
  let command := str "read" ++ [TAB] ++ m_FileName in
  let command :=
    fold_left
      (λ command d,
         command ++ [TAB] ++ toString (GetIndex region d)
                 ++ [TAB] ++ toString (GetSize region d))
      (seq 0 (m_ImageDimension region)) command in
  let command :=
    fold_left (λ command _, command ++ [TAB] ++ str "0" ++ [TAB] ++ str "1")
      (seq (m_ImageDimension region) (5 - m_ImageDimension region)) command in
  command ++ [LF].

(** [region.GetNumberOfPixels()]: the product of the sizes. *)
Definition GetNumberOfPixels (region : ImageIORegion) : nat :=
  Z.to_nat
    (fold_left (λ n d, (n * GetSize region d)%Z)
       (seq 0 (m_ImageDimension region)) 1%Z).

(** [Read], with the buffer [data] that it fills. *)
Definition Read (r : spawn_report) (observed : ProcessState)
    (pipe : list pipe_data) (io : SCIFIOImageIO) (m_FileName : list ascii)
    (region : ImageIORegion) (pixelSize : nat) (data : list ascii)
  : list action * read_result * SCIFIOImageIO :=
  let '(calls, started, io) := CreateJavaProcess r io in
  match started with
  | Thrown msg => (map Supervise calls, Read_thrown msg, io)
  | Returned _ =>
      let done :=
        map Supervise calls ++ [Send (Read_command m_FileName region)] in
      match Read_transfer pixelSize (GetNumberOfPixels region) pipe data with
      | Read_thrown msg =>
          let '(calls, io) := destroy_broken observed io in
          (done ++ map Supervise calls, Read_thrown msg, io)
      | result => (done, result, io)
      end
  end.

(** The start of the region on axis [d]; 0 beyond its dimensions. *)
Definition start (region : ImageIORegion) (d : nat) : Z :=
  if d <? m_ImageDimension region then GetIndex region d else 0%Z.

(** ** The plane handshake of [Write] *)

Definition pipelength : Z := 10000.

(** How the handshake ends; [sent] are the chunks written to the worker so
    far, in order. *)
Inductive handshake : Type :=
  | Hand_done (sent : list (list ascii)) (errorMessage : list ascii)
      (pipe : list pipe_data)
  | Hand_broke (sent : list (list ascii)) (errorMessage : list ascii)
  | Hand_waiting (sent : list (list ascii))
  | Hand_past_buffer (sent : list (list ascii))
  | Hand_out_of_fuel.

(** The loop [while(bytesRead < bytesPerPlane )] on one plane: write a
    chunk of at most [pipelength] bytes, wait for the frame that
    acknowledges it.  Every round writes at least one byte, so
    [bytesPerPlane] rounds of fuel are enough.

    [data] is what is left of the caller's buffer from the pointer [data]
    on.  [write( m_Pipe[1], data, bytesToRead )] takes [bytesToRead] bytes
    at [data] whatever the buffer holds: the source compares the two
    nowhere.  Where fewer bytes are left, the write reads memory that is
    not the buffer's, which has no defined behaviour; the run of the model
    ends there, with [Hand_past_buffer] and the chunks written until then.
    A write within the buffer is taken to send all its bytes, as the
    source takes it (it does not look at what [write] returns). *)
Fixpoint Write_plane (fuel : nat) (pipe : list pipe_data) (data : list ascii)
    (bytesRead bytesPerPlane : Z) (errorMessage : list ascii)
    (sent : list (list ascii))
  : handshake * list ascii :=
  if (bytesRead <? bytesPerPlane)%Z then
    match fuel with
    | 0 => (Hand_out_of_fuel, data)
    | S fuel' =>
        let bytesToRead :=
          if (pipelength <? bytesPerPlane - bytesRead)%Z then pipelength
          else (bytesPerPlane - bytesRead)%Z in
        if length data <? Z.to_nat bytesToRead then (Hand_past_buffer sent, data)
        else
          let sent := sent ++ [take (Z.to_nat bytesToRead) data] in
          let data := drop (Z.to_nat bytesToRead) data in
          let bytesRead := (bytesRead + bytesToRead)%Z in
          match wait_frame pipe [] errorMessage with
          | Arrived _ errorMessage pipe =>
              Write_plane fuel' pipe data bytesRead bytesPerPlane errorMessage
                sent
          | Broke errorMessage => (Hand_broke sent errorMessage, data)
          | Waiting => (Hand_waiting sent, data)
          end
    end
  else (Hand_done sent errorMessage pipe, data).

(** The loop [for (int i = 0; i < numPlanes; i++)], [planes] rounds: the
    chunks of a plane, then the frame that closes the plane. *)
Fixpoint Write_planes (planes : nat) (pipe : list pipe_data)
    (data : list ascii) (bytesPerPlane : Z) (errorMessage : list ascii)
    (sent : list (list ascii)) : handshake :=
  match planes with
  | 0 => Hand_done sent errorMessage pipe
  | S planes' =>
      match Write_plane (Z.to_nat bytesPerPlane) pipe data 0 bytesPerPlane
              errorMessage sent with
      | (Hand_done sent errorMessage pipe, data) =>
          match wait_frame pipe [] errorMessage with
          | Arrived _ errorMessage pipe =>
              Write_planes planes' pipe data bytesPerPlane errorMessage sent
          | Broke errorMessage => Hand_broke sent errorMessage
          | Waiting => Hand_waiting sent
          end
      | (stopped, _) => stopped
      end
  end.

(** What [Write] does once its command is sent: wait for the frame whose
    first line is the number of bytes per plane, then run the handshake. *)
Definition Write_transfer (region : ImageIORegion) (pipe : list pipe_data)
    (buffer : list ascii) : outcome handshake :=
  match wait_frame pipe [] [] with
  | Arrived imgInfo errorMessage pipe =>
      bytesPerPlane ← valueOfString_int (first_line imgInfo);
      Returned (Write_planes (planes_driven region) pipe buffer bytesPerPlane
                  errorMessage [])
  | Broke errorMessage => Returned (Hand_broke [] errorMessage)
  | Waiting => Returned (Hand_waiting [])
  end.

(** The chunks written when the handshake stopped. *)
Definition sent_of (h : handshake) : list (list ascii) :=
  match h with
  | Hand_done sent _ _ => sent
  | Hand_broke sent _ => sent
  | Hand_waiting sent => sent
  | Hand_past_buffer sent => sent
  | Hand_out_of_fuel => []
  end.

(** Answers of the worker that make up exactly one frame: whatever comes
    after them, the wait takes them all and no more. *)
Definition one_frame (answers : list pipe_data) : Prop :=
  ∀ rest errorMessage, ∃ imgInfo,
    wait_frame (answers ++ rest) [] errorMessage
    = Arrived imgInfo (errorMessage ++ stderr_bytes answers) rest.

(** The number of chunks that a plane of [bytesPerPlane] bytes takes. *)
Definition chunks_per_plane (bytesPerPlane : Z) : nat :=
  Z.to_nat ((bytesPerPlane + (pipelength - 1)) / pipelength).

(** ** What [ReadImageInformation] sets from the dictionary *)

Inductive IOPixelType : Type := SCALAR | RGB | VECTOR.

(** The setters of the image IO that [ReadImageInformation] calls, as
    calls: their effect on the image IO is ITK's.  [C] is ITK's type of
    component types, [D] is [double]. *)
Inductive setter (C D : Type) : Type :=
  | SetNumberOfDimensions (n : nat)
  | SetByteOrderToLittleEndian
  | SetByteOrderToBigEndian
  | SetComponentType (c : C)
  | SetDimensions (i : nat) (dim : Z)
  | SetPixelType (p : IOPixelType)
  | SetNumberOfComponents (n : Z)
  | SetSpacing (i : nat) (spacing : D).
Arguments SetNumberOfDimensions {C D} n.
Arguments SetByteOrderToLittleEndian {C D}.
Arguments SetByteOrderToBigEndian {C D}.
Arguments SetComponentType {C D} c.
Arguments SetDimensions {C D} i dim.
Arguments SetPixelType {C D} p.
Arguments SetNumberOfComponents {C D} n.
Arguments SetSpacing {C D} i spacing.

(** ITK's code of the unknown component type. *)
Definition UNKNOWNCOMPONENTTYPE : Z := 0.

Section descriptor.
Context {C D : Type}.
(** Declared in the header of the class: the component type of a SCIFIO
    pixel-type code. *)
Variable scifioToTIKComponentType : Z → C.
(** The primary template of [valueOfString] at [double]. *)
Variable valueOfString_double : list ascii → outcome D.

Definition GetTypedMetaData_double (dict : MetaDataDictionary)
    (key : list ascii) : outcome D :=
  valueOfString_double (ExposeMetaData dict key []).

(** A call of a setter, then the rest. *)
Definition call_then (s : setter C D) (k : list (setter C D) * outcome unit)
  : list (setter C D) * outcome unit :=
  (s :: k.1, k.2).

(** A value read from the dictionary, then the rest; a conversion that
    throws ends the function there. *)
Definition read_then {A : Type} (m : outcome A)
    (k : A → list (setter C D) * outcome unit)
  : list (setter C D) * outcome unit :=
  match m with
  | Returned a => k a
  | Thrown msg => ([], Thrown msg)
  end.

Definition set_dimensions (dict : MetaDataDictionary)
    (k : list (setter C D) * outcome unit) : list (setter C D) * outcome unit :=
  read_then (GetTypedMetaData_long dict (str "SizeX")) (λ i,
  call_then (SetDimensions 0 i) (
  read_then (GetTypedMetaData_long dict (str "SizeY")) (λ i,
  call_then (SetDimensions 1 i) (
  read_then (GetTypedMetaData_long dict (str "SizeZ")) (λ i,
  call_then (SetDimensions 2 i) (
  read_then (GetTypedMetaData_long dict (str "SizeT")) (λ i,
  call_then (SetDimensions 3 i) (
  read_then (GetTypedMetaData_long dict (str "SizeC")) (λ i,
  call_then (SetDimensions 4 i) k))))))))).

Definition set_spacing (dict : MetaDataDictionary)
  : list (setter C D) * outcome unit :=
  read_then (GetTypedMetaData_double dict (str "PixelsPhysicalSizeX")) (λ r,
  call_then (SetSpacing 0 r) (
  read_then (GetTypedMetaData_double dict (str "PixelsPhysicalSizeY")) (λ r,
  call_then (SetSpacing 1 r) (
  read_then (GetTypedMetaData_double dict (str "PixelsPhysicalSizeZ")) (λ r,
  call_then (SetSpacing 2 r) (
  read_then (GetTypedMetaData_double dict (str "PixelsPhysicalSizeT")) (λ r,
  call_then (SetSpacing 3 r) (
  read_then (GetTypedMetaData_double dict (str "PixelsPhysicalSizeC")) (λ r,
  call_then (SetSpacing 4 r) ([], Returned ())))))))))).

(** The part of [ReadImageInformation] after the dictionary is filled:
    the setters called, in order, and how the function ends. *)
Definition set_from_dictionary (dict : MetaDataDictionary)
  : list (setter C D) * outcome unit :=
  read_then (GetTypedMetaData_bool dict (str "Interleaved")) (λ _,
  read_then (GetTypedMetaData_bool dict (str "LittleEndian")) (λ b,
  call_then (if b : bool then SetByteOrderToLittleEndian
             else SetByteOrderToBigEndian) (
  if HasKey dict (str "PixelType") then
    read_then (GetTypedMetaData_long dict (str "PixelType")) (λ i,
    if (i =? UNKNOWNCOMPONENTTYPE)%Z then
      ([], Thrown (str "Unknown pixel type: " ++ toString i))
    else
      call_then (SetComponentType (scifioToTIKComponentType i)) (
      set_dimensions dict (
      read_then (GetTypedMetaData_long dict (str "RGBChannelCount")) (λ i,
      call_then (SetPixelType (if (i =? 1)%Z then SCALAR
                               else if (i =? 3)%Z then RGB
                               else VECTOR)) (
      call_then (SetNumberOfComponents i) (
      set_spacing dict))))))
  else ([], Thrown (str "PixelType is not in the metadata dictionary!"))))).

(** [ReadImageInformation] as a whole, on the dictionary [dict] of the
    object (the source takes a reference to it and clears it nowhere):
    what it does to the outside, the setters it calls, how it ends and
    with what dictionary (which the source copies to [itkMeta] before it
    reads from it), and the bridge.  No end ([None]) is an operation that
    still waits for the worker or whose metadata loop still runs. *)
Definition ReadImageInformation (r : spawn_report) (observed : ProcessState)
    (pipe : list pipe_data) (fuel : nat) (io : SCIFIOImageIO)
    (m_FileName : list ascii) (dict : MetaDataDictionary)
  : list action * list (setter C D)
    * option (outcome unit * MetaDataDictionary) * SCIFIOImageIO :=
  let '(calls, started, io) := CreateJavaProcess r io in
  match started with
  | Thrown msg => (map Supervise calls, [], Some (Thrown msg, dict), io)
  | Returned _ =>
      let command := str "info" ++ [TAB] ++ m_FileName ++ [LF] in
      let done := map Supervise calls ++ [Send command] in
      match wait_frame pipe [] [] with
      | Arrived imgInfo _ _ =>
          match fill_dictionary fuel imgInfo dict with
          | Some dict =>
              let '(setters, result) := set_from_dictionary dict in
              (done, SetNumberOfDimensions 5 :: setters,
               Some (result, dict), io)
          | None => (done, [SetNumberOfDimensions 5], None, io)
          end
      | Broke errorMessage =>
          let '(calls, io) := destroy_broken observed io in
          (done ++ map Supervise calls, [],
           Some (Thrown (exited_abnormally "info" errorMessage), dict), io)
      | Waiting => (done, [], None, io)
      end
  end.
End descriptor.

(** A dictionary as the worker fills it for a small grey image. *)
Definition described : MetaDataDictionary :=
  list_to_map
    [(str "Interleaved", str "false"); (str "LittleEndian", str "true");
     (str "PixelType", str "1"); (str "SizeX", str "4"); (str "SizeY", str "3");
     (str "SizeZ", str "1"); (str "SizeT", str "1"); (str "SizeC", str "1");
     (str "RGBChannelCount", str "1");
     (str "PixelsPhysicalSizeX", str "1"); (str "PixelsPhysicalSizeY", str "1");
     (str "PixelsPhysicalSizeZ", str "1"); (str "PixelsPhysicalSizeT", str "1");
     (str "PixelsPhysicalSizeC", str "1")].

(** ** Runs of the supervisor *)

(** What can happen to the bridge between two operations: a call of
    [CreateJavaProcess] (with what its spawn would lead to), a call of
    [DestroyJavaProcess], or the worker changing state on its own. *)
Inductive supervisor_step : Type :=
  | Step_create (r : spawn_report)
  | Step_destroy
  | Step_worker (state : ProcessState).

Definition run_step (io : SCIFIOImageIO) (step : supervisor_step)
  : list call * SCIFIOImageIO :=
  match step with
  | Step_create r => ((CreateJavaProcess r io).1.1, (CreateJavaProcess r io).2)
  | Step_destroy => DestroyJavaProcess io
  | Step_worker state =>
      ([], {| m_Process := (λ _, state) <$> m_Process io;
              m_Pipe_1 := m_Pipe_1 io |})
  end.

Fixpoint run_steps (io : SCIFIOImageIO) (steps : list supervisor_step)
  : list call * SCIFIOImageIO :=
  match steps with
  | [] => ([], io)
  | step :: steps' =>
      let '(calls, io) := run_step io step in
      let '(calls', io) := run_steps io steps' in
      (calls ++ calls', io)
  end.

Definition count_calls (c : call) (calls : list call) : nat :=
  length (filter (λ c', c' = c) calls).

(** The number of process handles that the bridge holds: one or none. *)
Definition held (io : SCIFIOImageIO) : nat :=
  match m_Process io with
  | Some _ => 1
  | None => 0
  end.

(** ** The escaping that [unescape] undoes *)

(** The way to write a value on one line: a backslash for each backslash,
    and backslash-n for each linefeed. *)
Fixpoint escape (value : list ascii) : list ascii :=
  match value with
  | [] => []
  | c :: r =>
      if decide (c = BSL) then BSL :: BSL :: escape r
      else if decide (c = LF) then BSL :: "n"%char :: escape r
      else c :: escape r
  end.

(** * Properties *)

(** ** Strings *)

Section string_facts.
Implicit Types (s pre rest line : list ascii) (c : ascii).

Lemma index_of_None c s : index_of c s = None ↔ c ∉ s.
Proof.
  induction s as [|x s IH]; simpl.
  - split; [intros _; apply not_elem_of_nil | done].
  - destruct (decide (x = c)) as [->|Hne].
    + split; [done | intros H; exfalso; apply H; left].
    + rewrite not_elem_of_cons. destruct (index_of c s); simpl.
      * split; [done | intros [_ H]; by apply IH in H].
      * split; [intros _; split; [congruence | by apply IH] | done].
Qed.

Lemma index_of_app c line rest :
  c ∉ line → index_of c (line ++ c :: rest) = Some (length line).
Proof.
  induction line as [|x line IH]; simpl; intros Hnot.
  - by rewrite decide_True.
  - apply not_elem_of_cons in Hnot as [Hne Hnot].
    rewrite decide_False by congruence. by rewrite IH.
Qed.

Lemma index_of_Some c s i :
  index_of c s = Some i →
  ∃ line rest, s = line ++ c :: rest ∧ length line = i ∧ c ∉ line.
Proof.
  revert i. induction s as [|x s IH]; simpl; intros i; [done |].
  destruct (decide (x = c)) as [->|Hne].
  - intros [= <-]. exists [], s. split_and!; [done | done | apply not_elem_of_nil].
  - destruct (index_of c s) as [j|] eqn:Hj; simpl; intros [= <-].
    destruct (IH j eq_refl) as (line & rest & -> & <- & Hnot).
    exists (x :: line), rest. split_and!; [done | done |].
    apply not_elem_of_cons. split; [congruence | done].
Qed.

Lemma find_line pre line rest c :
  c ∉ line →
  find (pre ++ line ++ c :: rest) c (length pre) = Some (length pre + length line).
Proof.
  intros Hnot. unfold find. rewrite drop_app_length.
  by rewrite index_of_app.
Qed.

Lemma substr_line pre line rest :
  substr (pre ++ line ++ rest) (length pre) (length line) = line.
Proof. unfold substr. rewrite drop_app_length. apply take_app_length. Qed.

End string_facts.

(** ** The unescape loop *)

Lemma unescape_loop_eq value lp0 tmp :
  unescape_loop value lp0 tmp =
  if lp0 <? length value then
    match find value BSL lp0 with
    | None =>
        unescape_loop value (length value)
          (tmp ++ substr value lp0 (length value - lp0))
    | Some lp1 =>
        unescape_loop value (lp1 + 2) (unescape_append value lp0 lp1 tmp)
    end
  else tmp.
Proof.
  funelim (unescape_loop value lp0 tmp).
  - by rewrite e.
  - by rewrite Hlt, Hfind.
  - by rewrite Hlt, e.
Qed.

Lemma unescape_loop_end value lp0 tmp :
  length value ≤ lp0 → unescape_loop value lp0 tmp = tmp.
Proof.
  intros Hle. rewrite unescape_loop_eq.
  by rewrite (proj2 (Nat.ltb_ge _ _) Hle).
Qed.

Lemma unescape_spec_plain plain rest :
  BSL ∉ plain → unescape_spec (plain ++ rest) = plain ++ unescape_spec rest.
Proof.
  induction plain as [|c plain IH]; simpl; intros Hnot; [done |].
  apply not_elem_of_cons in Hnot as [Hne Hnot].
  rewrite decide_False by congruence. by rewrite IH.
Qed.

Lemma unescape_spec_no_escape plain :
  BSL ∉ plain → unescape_spec plain = plain.
Proof.
  intros Hnot. rewrite <- (app_nil_r plain) at 1.
  rewrite unescape_spec_plain by done. simpl. apply app_nil_r.
Qed.

(** The loop, started at the end of any prefix [pre] of the value, appends
    to [tmp] the decoding of what follows the prefix. *)
Lemma unescape_loop_spec rest : ∀ pre tmp,
  unescape_loop (pre ++ rest) (length pre) tmp = tmp ++ unescape_spec rest.
Proof.
  remember (length rest) as n eqn:Hn. revert rest Hn.
  induction n as [n IH] using lt_wf_ind. intros rest -> pre tmp.
  rewrite unescape_loop_eq, length_app.
  destruct (decide (rest = [])) as [->|Hne].
  { simpl. rewrite Nat.add_0_r, Nat.ltb_irrefl. by rewrite app_nil_r. }
  assert ((length pre <? length pre + length rest) = true) as ->.
  { apply Nat.ltb_lt. destruct rest; [done | simpl; lia]. }
  unfold find. rewrite drop_app_length.
  destruct (index_of BSL rest) as [i|] eqn:Hi; simpl.
  - apply index_of_Some in Hi as (plain & more & -> & <- & Hnot).
    rewrite unescape_spec_plain by done.
    unfold unescape_append.
    replace (length pre + length plain - length pre) with (length plain) by lia.
    rewrite substr_line.
    destruct more as [|e more].
    + rewrite decide_False by (rewrite !length_app; simpl; lia).
      rewrite unescape_loop_end by (rewrite !length_app; simpl; lia).
      simpl. by rewrite app_nil_r.
    + rewrite decide_True by (rewrite !length_app; simpl; lia).
      assert ((pre ++ plain ++ BSL :: e :: more) !! (length pre + length plain + 1)
              = Some e) as ->.
      { rewrite lookup_app_r by lia. rewrite lookup_app_r by lia.
        by replace (length pre + length plain + 1 - length pre - length plain)
          with 1 by lia. }
      replace (pre ++ plain ++ BSL :: e :: more)
        with ((pre ++ plain ++ [BSL; e]) ++ more)
        by (by rewrite <- !app_assoc).
      replace (length pre + length plain + 2)
        with (length (pre ++ plain ++ [BSL; e]))
        by (rewrite !length_app; simpl; lia).
      rewrite (IH (length more) ltac:(rewrite !length_app; simpl; lia) more eq_refl).
      simpl.
      destruct (decide (e = BSL)); [by rewrite <- !app_assoc |].
      destruct (decide (e = "n"%char)); by rewrite <- !app_assoc.
  - apply index_of_None in Hi.
    replace (length pre + length rest - length pre) with (length rest) by lia.
    assert (substr (pre ++ rest) (length pre) (length rest) = rest) as ->.
    { unfold substr. rewrite drop_app_length. apply firstn_all. }
    rewrite unescape_loop_end by (rewrite length_app; lia).
    by rewrite unescape_spec_no_escape.
Qed.

Lemma unescape_refines value : unescape value = unescape_spec value.
Proof. exact (unescape_loop_spec value [] []). Qed.

(** C3.  Unescaping a value reads it from left to right: a backslash and
    the backslash after it give one backslash; a backslash and the [n]
    after it give one linefeed; a backslash and any other character after
    it give nothing; every other character is copied as it is.  So the
    value a, backslash, backslash, n, b decodes to a, backslash, n, b, and
    the value a, backslash, n, space, b decodes to a, linefeed, space, b. *)
Theorem unescape_rules :
  (∀ value, unescape value = unescape_spec value)
  ∧ unescape ["a"; BSL; BSL; "n"; "b"]%char = ["a"; BSL; "n"; "b"]%char
  ∧ unescape ["a"; BSL; "n"; " "; "b"]%char = ["a"; LF; " "; "b"]%char.
Proof.
  split_and!; [apply unescape_refines | |]; by rewrite unescape_refines.
Qed.

Lemma unescape_spec_snoc value :
  unescape_spec (value ++ [BSL]) =
  unescape_spec value ++ (if ends_in_escape value then [BSL] else []).
Proof.
  remember (length value) as n eqn:Hn. revert value Hn.
  induction n as [n IH] using lt_wf_ind. intros value ->.
  destruct value as [|c [|e r]]; [done | |].
  - simpl. by destruct (decide (c = BSL)).
  - destruct (decide (c = BSL)) as [->|Hc].
    + change (unescape_spec ((BSL :: e :: r) ++ [BSL]))
        with (if decide (e = BSL) then BSL :: unescape_spec (r ++ [BSL])
              else if decide (e = "n"%char) then LF :: unescape_spec (r ++ [BSL])
              else unescape_spec (r ++ [BSL])).
      change (unescape_spec (BSL :: e :: r))
        with (if decide (e = BSL) then BSL :: unescape_spec r
              else if decide (e = "n"%char) then LF :: unescape_spec r
              else unescape_spec r).
      change (ends_in_escape (BSL :: e :: r)) with (ends_in_escape r).
      rewrite (IH (length r) ltac:(simpl; lia) r eq_refl).
      destruct (decide (e = BSL)); [done |].
      by destruct (decide (e = "n"%char)).
    + change ((c :: e :: r) ++ [BSL]) with (c :: ((e :: r) ++ [BSL])).
      assert (∀ l, unescape_spec (c :: l) = c :: unescape_spec l) as Hplain.
      { intros l. simpl. by rewrite decide_False. }
      rewrite !Hplain.
      rewrite (IH (length (e :: r)) ltac:(simpl; lia) (e :: r) eq_refl).
      change (ends_in_escape (c :: e :: r))
        with (if decide (c = BSL) then ends_in_escape r
              else ends_in_escape (e :: r)).
      by rewrite decide_False.
Qed.

(** C9, as the code has it.  A backslash at the end of a value is dropped,
    with nothing put in its place, when it is not itself escaped by the
    backslash before it; when it is (the value, read from left to right,
    ends with the pair backslash-backslash), it stands for the one
    backslash that the pair decodes to. *)
Theorem unescape_trailing_backslash (value : list ascii) :
  unescape (value ++ [BSL]) =
  unescape value ++ (if ends_in_escape value then [BSL] else []).
Proof.
  rewrite !unescape_refines. apply unescape_spec_snoc.
Qed.

(** C9 as stated fails: the value backslash-backslash ends in a backslash,
    and decodes to a backslash, not to the decoding of the one backslash
    before it. *)
Lemma unescape_trailing_backslash_kept :
  unescape ([BSL] ++ [BSL]) = [BSL] ∧ unescape [BSL] = []
  ∧ unescape ([BSL] ++ [BSL]) ≠ unescape [BSL].
Proof. by vm_compute. Qed.

(** ** The metadata loop *)

Section metadata_loop.
Implicit Types (pre key value rest imgInfo : list ascii).
Implicit Types (dict : MetaDataDictionary).

Lemma line_at_found pre line rest :
  LF ∉ line →
  line_at (pre ++ line ++ LF :: rest) (length pre)
    (find (pre ++ line ++ LF :: rest) LF (length pre)) = line.
Proof.
  intros Hnot. rewrite find_line by done. simpl.
  replace (length pre + length line - length pre) with (length line) by lia.
  apply substr_line.
Qed.

Lemma next_line_found pre line rest :
  LF ∉ line →
  next_line (find (pre ++ line ++ LF :: rest) LF (length pre))
  = length (pre ++ line ++ [LF]).
Proof.
  intros Hnot. rewrite find_line by done. simpl.
  rewrite !length_app. simpl. lia.
Qed.

(** An empty line where a key is expected. *)
Lemma parse_iteration_blank pre rest dict :
  parse_iteration (pre ++ LF :: rest) (length pre) dict
  = (length pre + 1, dict).
Proof.
  unfold parse_iteration.
  pose proof (line_at_found pre [] rest (not_elem_of_nil _)) as Hline.
  pose proof (next_line_found pre [] rest (not_elem_of_nil _)) as Hnext.
  simpl in Hline, Hnext. rewrite Hline, Hnext.
  rewrite decide_True by done. by rewrite length_app.
Qed.

(** A key whose next line is empty. *)
Lemma parse_iteration_dropped pre key rest dict :
  key ≠ [] → LF ∉ key →
  parse_iteration (pre ++ key ++ LF :: LF :: rest) (length pre) dict
  = (length pre + length key + 2, dict).
Proof.
  intros Hkey Hnot. unfold parse_iteration.
  rewrite line_at_found, next_line_found by done.
  rewrite decide_False by done.
  replace (pre ++ key ++ LF :: LF :: rest)
    with ((pre ++ key ++ [LF]) ++ [] ++ LF :: rest)
    by (by rewrite <- !app_assoc).
  rewrite line_at_found, next_line_found by apply not_elem_of_nil.
  rewrite decide_True by done.
  f_equal. rewrite !length_app. simpl. lia.
Qed.

(** A key and its value. *)
Lemma parse_iteration_pair pre key value rest dict :
  key ≠ [] → LF ∉ key → value ≠ [] → LF ∉ value →
  parse_iteration (pre ++ key ++ LF :: value ++ LF :: rest) (length pre) dict
  = (length pre + length key + length value + 2, store_pair dict (key, value)).
Proof.
  intros Hkey Hnot Hvalue Hnot'. unfold parse_iteration.
  rewrite line_at_found, next_line_found by done.
  rewrite decide_False by done.
  replace (pre ++ key ++ LF :: value ++ LF :: rest)
    with ((pre ++ key ++ [LF]) ++ value ++ LF :: rest)
    by (by rewrite <- !app_assoc).
  rewrite line_at_found, next_line_found by done.
  rewrite decide_False by done.
  f_equal. rewrite !length_app. simpl. lia.
Qed.

Lemma parse_loop_step fuel imgInfo p0 dict :
  p0 < length imgInfo →
  parse_loop (S fuel) imgInfo p0 dict =
  parse_loop fuel imgInfo (parse_iteration imgInfo p0 dict).1
    (parse_iteration imgInfo p0 dict).2.
Proof.
  intros Hlt. simpl. rewrite (proj2 (Nat.ltb_lt _ _) Hlt).
  by destruct (parse_iteration imgInfo p0 dict).
Qed.

Lemma parse_loop_done fuel imgInfo p0 dict :
  length imgInfo ≤ p0 → parse_loop fuel imgInfo p0 dict = Some dict.
Proof.
  intros Hle. destruct fuel; simpl; by rewrite (proj2 (Nat.ltb_ge _ _) Hle).
Qed.

Lemma frame_of_lines_cons line lines :
  frame_of_lines (line :: lines) = line ++ LF :: frame_of_lines lines.
Proof.
  unfold frame_of_lines, text_of_lines. cbn [map concat].
  by rewrite <- !app_assoc.
Qed.

(** The loop on a frame, from the start of any of its key lines on: it
    ends, and stores the pairs of the lines left, in order. *)
Lemma parse_loop_frame lines : ∀ pre dict fuel,
  Forall (λ l, LF ∉ l) lines →
  length (frame_of_lines lines) ≤ fuel →
  parse_loop fuel (pre ++ frame_of_lines lines) (length pre) dict
  = Some (store_pairs (pairs_of_lines lines) dict).
Proof.
  remember (length lines) as n eqn:Hn. revert lines Hn.
  induction n as [n IH] using lt_wf_ind.
  intros lines -> pre dict fuel Hlines Hfuel.
  destruct lines as [|key rest].
  { change (frame_of_lines []) with [LF] in *.
    destruct fuel as [|fuel]; [simpl in Hfuel; lia |].
    rewrite parse_loop_step by (rewrite length_app; simpl; lia).
    rewrite parse_iteration_blank. simpl.
    apply parse_loop_done. rewrite length_app. simpl. lia. }
  rewrite frame_of_lines_cons in *.
  apply Forall_cons in Hlines as [Hkey Hrest].
  rewrite length_app in Hfuel. simpl in Hfuel.
  destruct fuel as [|fuel]; [lia |].
  rewrite parse_loop_step by (rewrite !length_app; simpl; lia).
  destruct (decide (key = [])) as [->|Hne].
  { change ([] ++ LF :: frame_of_lines rest) with (LF :: frame_of_lines rest).
    rewrite parse_iteration_blank. cbn [fst snd].
    replace (pre ++ LF :: frame_of_lines rest)
      with ((pre ++ [LF]) ++ frame_of_lines rest) by (by rewrite <- app_assoc).
    replace (length pre + 1) with (length (pre ++ [LF]))
      by (rewrite length_app; simpl; lia).
    rewrite (IH (length rest) ltac:(simpl; lia) rest eq_refl) by (done || simpl in *; lia).
    done. }
  destruct rest as [|value rest].
  { change (frame_of_lines []) with [LF].
    rewrite parse_iteration_dropped by done. cbn [fst snd].
    rewrite parse_loop_done by (rewrite !length_app; simpl; lia).
    simpl. by rewrite decide_False. }
  rewrite frame_of_lines_cons in *.
  apply Forall_cons in Hrest as [Hvalue Hrest].
  rewrite length_app in Hfuel. simpl in Hfuel.
  destruct (decide (value = [])) as [->|Hne'].
  - change ([] ++ LF :: frame_of_lines rest) with (LF :: frame_of_lines rest).
    rewrite parse_iteration_dropped by done. cbn [fst snd].
    replace (pre ++ key ++ LF :: LF :: frame_of_lines rest)
      with ((pre ++ key ++ [LF; LF]) ++ frame_of_lines rest)
      by (by rewrite <- !app_assoc).
    replace (length pre + length key + 2) with (length (pre ++ key ++ [LF; LF]))
      by (rewrite !length_app; simpl; lia).
    rewrite (IH (length rest) ltac:(simpl; lia) rest eq_refl) by (done || simpl in *; lia).
    simpl. by rewrite decide_False.
  - rewrite parse_iteration_pair by done. cbn [fst snd].
    replace (pre ++ key ++ LF :: value ++ LF :: frame_of_lines rest)
      with ((pre ++ key ++ LF :: value ++ [LF]) ++ frame_of_lines rest)
      by (rewrite <- !app_assoc; simpl; by rewrite <- !app_assoc).
    replace (length pre + length key + length value + 2)
      with (length (pre ++ key ++ LF :: value ++ [LF]))
      by (rewrite !length_app; simpl; rewrite length_app; simpl; lia).
    rewrite (IH (length rest) ltac:(simpl; lia) rest eq_refl) by (done || simpl in *; lia).
    simpl. rewrite !decide_False by done. done.
Qed.

Lemma store_pair_lookup dict kv key :
  store_pair dict kv !! key =
  match dict !! key with
  | Some v => Some v
  | None => if decide (kv.1 = key) then Some (unescape kv.2) else None
  end.
Proof.
  unfold store_pair, HasKey, EncapsulateMetaData.
  destruct (decide (kv.1 = key)) as [<-|Hne].
  - destruct (dict !! kv.1) as [v|] eqn:Hv.
    + by rewrite bool_decide_eq_true_2 by eauto.
    + rewrite bool_decide_eq_false_2 by (by intros [? ?]).
      by rewrite lookup_insert_eq.
  - case_bool_decide; [by destruct (dict !! key) |].
    rewrite lookup_insert_ne by done. by destruct (dict !! key).
Qed.

(** First occurrence wins: a key already in the dictionary keeps its
    value; another key gets the value of its first pair. *)
Lemma store_pairs_lookup pairs : ∀ dict key,
  store_pairs pairs dict !! key =
  match dict !! key with
  | Some v => Some v
  | None => unescape <$> first_value key pairs
  end.
Proof.
  induction pairs as [|[k v] pairs IH]; intros dict key; simpl.
  - by destruct (dict !! key).
  - unfold store_pairs in *. simpl. rewrite IH, store_pair_lookup. simpl.
    destruct (dict !! key); [done |].
    by destruct (decide (k = key)).
Qed.
End metadata_loop.




(** Without [WIN32]: when the loop stands at a key line that is followed at
    once by an empty line, the round leaves the dictionary as it was -- no
    entry is made for the key, with an empty value or any other -- and the
    next round starts at the line after the empty line, which it reads as
    a key. *)
Lemma key_without_value_dropped (pre key rest : list ascii)
    (dict : MetaDataDictionary) (fuel : nat) :
  key ≠ [] → LF ∉ key →
  parse_iteration (pre ++ key ++ [LF] ++ [LF] ++ rest) (length pre) dict
  = (length (pre ++ key ++ [LF] ++ [LF]), dict)
  ∧ parse_loop (S fuel) (pre ++ key ++ [LF] ++ [LF] ++ rest) (length pre) dict
    = parse_loop fuel (pre ++ key ++ [LF] ++ [LF] ++ rest)
        (length (pre ++ key ++ [LF] ++ [LF])) dict.
Proof.
  intros Hkey Hnot.
  assert (parse_iteration (pre ++ key ++ [LF] ++ [LF] ++ rest) (length pre) dict
          = (length (pre ++ key ++ [LF] ++ [LF]), dict)) as Hround.
  { simpl. rewrite parse_iteration_dropped by done.
    f_equal. rewrite !length_app. simpl. lia. }
  split; [exact Hround |].
  rewrite parse_loop_step by (rewrite !length_app; simpl; lia).
  by rewrite Hround.
Qed.

(** The frame A, empty line, B, 1: the key A is dropped and B is read as
    the next key. *)
Lemma key_without_value_dropped_A :
  parse_iteration ([] ++ str "A" ++ [LF] ++ [LF] ++ frame_of_lines [str "B"; str "1"])
    (length (@nil ascii)) ∅
  = (length ([] ++ str "A" ++ [LF] ++ [LF]), ∅)
  ∧ parse_loop (S 6)
      ([] ++ str "A" ++ [LF] ++ [LF] ++ frame_of_lines [str "B"; str "1"])
      (length (@nil ascii)) ∅
    = parse_loop 6
        ([] ++ str "A" ++ [LF] ++ [LF] ++ frame_of_lines [str "B"; str "1"])
        (length ([] ++ str "A" ++ [LF] ++ [LF])) ∅.
Proof.
  apply (key_without_value_dropped [] (str "A")
           (frame_of_lines [str "B"; str "1"]) ∅ 6).
  - discriminate.
  - apply (bool_decide_unpack _). vm_compute. exact I.
Defined.

(** On a whole frame: a key line followed by an empty line, and the
    empty line, can be struck out of the frame without changing the
    dictionary that results. *)
Lemma fill_dictionary_dropped_key key lines dict fuel :
  key ≠ [] → LF ∉ key → Forall (λ l, LF ∉ l) lines →
  length (frame_of_lines (key :: [] :: lines)) ≤ fuel →
  fill_dictionary fuel (frame_of_lines (key :: [] :: lines)) dict
  = fill_dictionary fuel (frame_of_lines lines) dict.
Proof.
  intros Hkey Hnot Hlines Hfuel. unfold fill_dictionary.
  pose proof (parse_loop_frame (key :: [] :: lines) [] dict fuel) as Hwith.
  pose proof (parse_loop_frame lines [] dict fuel Hlines) as Hwithout.
  simpl in Hwith, Hwithout. rewrite Hwith, Hwithout.
  - by rewrite decide_False.
  - rewrite !frame_of_lines_cons, !length_app in Hfuel. simpl in Hfuel. lia.
  - repeat constructor; [done | apply not_elem_of_nil | done].
  - done.
Qed.

Example key_without_value_dropped_frame :
  fill_dictionary 8 (frame_of_lines [str "A"; []; str "B"; str "1"]) ∅
  = Some {[ str "B" := str "1" ]}.
Proof. by vm_compute. Qed.

(** C10 fails on the code as compiled with [WIN32]: there the test that is
    to skip an empty value line compares the line with a carriage return,
    which a line cut at carriage return and linefeed never is.  On the
    frame A, empty line, B, 1 the key A is stored with an empty value (and
    B with 1), where the same frame with plain linefeeds, in the other
    configuration, stores B alone.  The round at the key line A ends at
    the line B in both. *)
Theorem key_without_value_stored_WIN32 :
  WIN32.frame_of_lines [str "A"; []; str "B"; str "1"]
  = str "A" ++ [WIN32.CR; LF] ++ [WIN32.CR; LF]
    ++ str "B" ++ [WIN32.CR; LF] ++ str "1" ++ [WIN32.CR; LF]
    ++ [WIN32.CR; LF]
  ∧ WIN32.parse_iteration
      (WIN32.frame_of_lines [str "A"; []; str "B"; str "1"]) 0 ∅
    = (5, {[ str "A" := [] ]})
  ∧ WIN32.fill_dictionary 13
      (WIN32.frame_of_lines [str "A"; []; str "B"; str "1"]) ∅
    = Some {[ str "A" := []; str "B" := str "1" ]}
  ∧ parse_iteration (frame_of_lines [str "A"; []; str "B"; str "1"]) 0 ∅
    = (3, ∅)
  ∧ fill_dictionary 8 (frame_of_lines [str "A"; []; str "B"; str "1"]) ∅
    = Some {[ str "B" := str "1" ]}.
Proof. split_and!; by vm_compute. Qed.

(** Why the loop runs on fuel: on a text without a final linefeed the last
    [find] answers [npos], [p0] goes back to 0 and the loop starts over,
    for ever. *)
Example parse_loop_unterminated (fuel : nat) :
  ∀ dict, parse_loop fuel (str "k") 0 dict = None.
Proof.
  induction fuel as [|fuel IH]; intros dict; [done |].
  rewrite parse_loop_step by (simpl; lia).
  assert ((parse_iteration (str "k") 0 dict).1 = 0) as -> by done.
  apply IH.
Qed.

(** ** The process supervisor *)

(** Only the executing state passes the check after the spawn. *)
Lemma check_spawned_thrown r :
  spawn_state r ≠ State_Executing → is_thrown (check_spawned r) = true.
Proof. unfold check_spawned. by destruct (spawn_state r). Qed.

Lemma CreateJavaProcess_spawns r io :
  m_Process io ≠ Some State_Executing →
  CreateJavaProcess r io =
  ((match m_Process io with
    | Some _ => [Process_Delete; Call_close_write_end]
    | None => []
    end) ++ spawn_calls,
   check_spawned r,
   {| m_Process := Some (spawn_state r); m_Pipe_1 := Pipe_open |}).
Proof.
  intros Hnot. unfold CreateJavaProcess, DestroyJavaProcess.
  destruct (m_Process io) as [[]|]; try done.
Qed.

(** C6, as the code has it.  When the process found after the spawn is in
    any state but executing, [CreateJavaProcess] fails with an error and
    leaves no live handle; the handle of the failed process and the open
    write end of the pipe stay behind, since the failing call does no
    teardown.  The teardown comes with the next call: it finds the handle
    not executing and deletes it and closes the pipe end before it spawns
    again; [DestroyJavaProcess] does the same. *)
Theorem CreateJavaProcess_failure (r : spawn_report) (io : SCIFIOImageIO) :
  spawn_state r ≠ State_Executing →
  m_Process io ≠ Some State_Executing →
  is_thrown (CreateJavaProcess r io).1.2 = true
  ∧ live (CreateJavaProcess r io).2 = false
  ∧ (CreateJavaProcess r io).2
    = {| m_Process := Some (spawn_state r); m_Pipe_1 := Pipe_open |}
  ∧ last (CreateJavaProcess r io).1.1 = Some Process_Execute
  ∧ (∀ r', (CreateJavaProcess r' (CreateJavaProcess r io).2).1.1
           = [Process_Delete; Call_close_write_end] ++ spawn_calls)
  ∧ DestroyJavaProcess (CreateJavaProcess r io).2
    = ([Process_Delete; Call_close_write_end],
       {| m_Process := None; m_Pipe_1 := Pipe_closed |}).
Proof.
  intros Hr Hio. rewrite CreateJavaProcess_spawns by done. cbn [fst snd].
  split_and!.
  - by apply check_spawned_thrown.
  - unfold live. cbn. apply bool_decide_eq_false_2. congruence.
  - done.
  - by destruct (m_Process io).
  - intros r'. rewrite CreateJavaProcess_spawns; [done |].
    cbn. congruence.
  - unfold DestroyJavaProcess. cbn. by rewrite decide_False.
Qed.

Lemma CreateJavaProcess_failure_exited :
  let r := {| spawn_state := State_Exited; exit_value := 1;
              error_string := []; exception_string := [] |} in
  is_thrown (CreateJavaProcess r constructed).1.2 = true
  ∧ live (CreateJavaProcess r constructed).2 = false
  ∧ (CreateJavaProcess r constructed).2
    = {| m_Process := Some (spawn_state r); m_Pipe_1 := Pipe_open |}
  ∧ last (CreateJavaProcess r constructed).1.1 = Some Process_Execute
  ∧ (∀ r', (CreateJavaProcess r' (CreateJavaProcess r constructed).2).1.1
           = [Process_Delete; Call_close_write_end] ++ spawn_calls)
  ∧ DestroyJavaProcess (CreateJavaProcess r constructed).2
    = ([Process_Delete; Call_close_write_end],
       {| m_Process := None; m_Pipe_1 := Pipe_closed |}).
Proof.
  intros r. apply (CreateJavaProcess_failure r constructed).
  - simpl. discriminate.
  - simpl. discriminate.
Defined.

(** C6 as stated fails: after a spawn that ends in the exited state the
    call throws, yet the bridge still holds the handle, the pipe end is
    open, and no teardown call was made. *)
Lemma CreateJavaProcess_leaves_handle :
  let r := {| spawn_state := State_Exited; exit_value := 1;
              error_string := []; exception_string := [] |} in
  is_thrown (CreateJavaProcess r constructed).1.2 = true
  ∧ m_Process (CreateJavaProcess r constructed).2 = Some State_Exited
  ∧ m_Pipe_1 (CreateJavaProcess r constructed).2 = Pipe_open
  ∧ (Process_Delete ∉ ((CreateJavaProcess r constructed).1.1))
  ∧ (Call_close_write_end ∉ ((CreateJavaProcess r constructed).1.1)).
Proof.
  cbn. split_and!; try done.
  all: apply (bool_decide_unpack _); vm_compute; exact I.
Qed.

(** C7, as the code has it.  [DestroyJavaProcess] always ends with no
    process handle.  It closes the write end of the pipe exactly when it
    finds a handle: on an executing process its calls are, in this order,
    kill, wait for the exit, delete the handle, close the pipe end; on a
    handle whose process is not executing they are delete and close, with
    no kill and no wait; in both cases the pipe end is closed afterwards.
    When there is no process it returns at once, makes no call and leaves
    the bridge as it was.  So it is idempotent: a second call changes
    nothing and calls nothing. *)
Theorem DestroyJavaProcess_idempotent (io : SCIFIOImageIO) :
  m_Process (DestroyJavaProcess io).2 = None
  ∧ (Call_close_write_end ∈ ((DestroyJavaProcess io).1) ↔ is_Some (m_Process io))
  ∧ (Process_Kill ∈ ((DestroyJavaProcess io).1) ↔ live io = true)
  ∧ (live io = true →
     (DestroyJavaProcess io).1
     = [Process_Kill; Process_WaitForExit; Process_Delete;
        Call_close_write_end])
  ∧ (is_Some (m_Process io) → live io = false →
     (DestroyJavaProcess io).1 = [Process_Delete; Call_close_write_end])
  ∧ (is_Some (m_Process io) →
     m_Pipe_1 (DestroyJavaProcess io).2 = Pipe_closed)
  ∧ (m_Process io = None → DestroyJavaProcess io = ([], io))
  ∧ DestroyJavaProcess (DestroyJavaProcess io).2 = ([], (DestroyJavaProcess io).2).
Proof.
  unfold DestroyJavaProcess, live. destruct io as [[state|] pipe]; cbn.
  - split_and!; [done | | | | | done | done | done].
    + split; [by eauto |]. intros _. rewrite elem_of_app. right.
      rewrite !elem_of_cons. by right; left.
    + rewrite bool_decide_eq_true. destruct (decide (state = State_Executing)) as [->|Hne].
      * split; [done |]. intros _. cbn. rewrite !elem_of_cons. by left.
      * cbn. rewrite !elem_of_cons, elem_of_nil.
        split; [intros [|[|]]; done | congruence].
    + intros [= ->]%bool_decide_eq_true. by rewrite decide_True.
    + intros _ Hnot%bool_decide_eq_false. rewrite decide_False; [done |].
      congruence.
  - split_and!; [done | | | | | by intros [? ?] | done | done].
    + rewrite elem_of_nil. split; [done | by intros [? ?]].
    + rewrite elem_of_nil. by rewrite bool_decide_eq_true.
    + by intros ?%bool_decide_eq_true.
    + by intros [? ?].
Qed.

(** On an executing worker: kill, wait, delete, close, and the pipe end is
    closed. *)
Lemma DestroyJavaProcess_idempotent_executing :
  (DestroyJavaProcess
     {| m_Process := Some State_Executing; m_Pipe_1 := Pipe_open |}).1
  = [Process_Kill; Process_WaitForExit; Process_Delete; Call_close_write_end]
  ∧ m_Pipe_1
      (DestroyJavaProcess
         {| m_Process := Some State_Executing; m_Pipe_1 := Pipe_open |}).2
    = Pipe_closed.
Proof.
  destruct (DestroyJavaProcess_idempotent
              {| m_Process := Some State_Executing; m_Pipe_1 := Pipe_open |})
    as (_ & _ & _ & Hlive & _ & Hclosed & _).
  split.
  - apply Hlive. reflexivity.
  - apply Hclosed. simpl. eauto.
Defined.

(** C7 as stated fails: with no process, the call closes nothing, be it on
    the bridge as constructed or on a bridge whose process was destroyed
    by an earlier call. *)
Lemma DestroyJavaProcess_without_process :
  DestroyJavaProcess constructed = ([], constructed)
  ∧ (Call_close_write_end ∉ ((DestroyJavaProcess constructed).1))
  ∧ DestroyJavaProcess
      (DestroyJavaProcess
         {| m_Process := Some State_Executing; m_Pipe_1 := Pipe_open |}).2
    = ([], {| m_Process := None; m_Pipe_1 := Pipe_closed |}).
Proof. split_and!; [done | apply not_elem_of_nil | done]. Qed.

(** ** The transfer loop of [Read] *)

Section read_loop.
Implicit Types (pipe later : list pipe_data).
Implicit Types (data filled junk pipedata errorMessage : list ascii).

Lemma Read_loop_done pipe data pos byteCount errorMessage :
  byteCount ≤ pos →
  Read_loop pipe data pos byteCount errorMessage = Read_done data errorMessage.
Proof.
  intros Hle. destruct pipe; simpl; by rewrite (proj2 (Nat.ltb_ge _ _) Hle).
Qed.

(** Copying a chunk right after the part already filled. *)
Lemma memcpy_filled filled junk pipedata :
  memcpy (filled ++ junk) (length filled) pipedata
  = (filled ++ pipedata) ++ drop (length pipedata) junk.
Proof.
  unfold memcpy. rewrite take_app_length.
  rewrite drop_app_ge by lia.
  replace (length filled + length pipedata - length filled)
    with (length pipedata) by lia.
  by rewrite <- app_assoc.
Qed.

Lemma stdout_bytes_cons e pipe :
  stdout_bytes (e :: pipe) =
  match e with Pipe_STDOUT d => d | _ => [] end ++ stdout_bytes pipe.
Proof. done. Qed.

(** The loop, with [filled] already in place: it ends once the answers
    [pipe] are taken, with their output bytes appended in order. *)
Lemma Read_loop_delivers pipe : ∀ later filled junk errorMessage byteCount,
  Forall (λ e, is_abnormal e = false) pipe →
  length filled + length (stdout_bytes pipe) = byteCount →
  length (filled ++ junk) = byteCount →
  ∃ errorMessage',
    Read_loop (pipe ++ later) (filled ++ junk) (length filled) byteCount
      errorMessage
    = Read_done (filled ++ stdout_bytes pipe) errorMessage'.
Proof.
  induction pipe as [|e pipe IH];
    intros later filled junk errorMessage byteCount Hpipe Hbytes Hdata.
  - simpl in Hbytes. rewrite length_app in Hdata.
    assert (junk = []) as -> by (apply nil_length_inv; lia).
    exists errorMessage. rewrite Read_loop_done by lia. done.
  - apply Forall_cons in Hpipe as [He Hpipe].
    rewrite stdout_bytes_cons in *. rewrite length_app in Hbytes, Hdata.
    destruct (decide (length filled < byteCount)) as [Hlt|Hge].
    + change ((e :: pipe) ++ later) with (e :: (pipe ++ later)).
      cbn [Read_loop]. rewrite (proj2 (Nat.ltb_lt _ _) Hlt).
      destruct e as [pipedata|pipedata|]; [| |done].
      * rewrite memcpy_filled.
        replace (length filled + length pipedata)
          with (length (filled ++ pipedata)) by (by rewrite length_app).
        destruct (IH later (filled ++ pipedata)
                    (drop (length pipedata) junk) errorMessage byteCount)
          as [errorMessage' Hloop];
          [done | rewrite length_app; lia
          | rewrite !length_app, length_drop; lia |].
        exists errorMessage'. rewrite Hloop. by rewrite <- app_assoc.
      * destruct (IH later filled junk (errorMessage ++ pipedata) byteCount)
          as [errorMessage' Hloop];
          [done | simpl in Hbytes; lia | rewrite length_app; lia |].
        exists errorMessage'. by rewrite Hloop.
    + assert (junk = []) as -> by (apply nil_length_inv; lia).
      assert (match e with Pipe_STDOUT d => d | _ => [] end
              ++ stdout_bytes pipe = []) as ->
        by (apply nil_length_inv; rewrite length_app; lia).
      exists errorMessage. rewrite Read_loop_done by lia. done.
Qed.
End read_loop.

(** C8.  When the worker's answers carry no abnormal signal and their
    standard-output data add up to exactly the byte count of the region
    (pixel size times number of pixels), however that data is cut into
    chunks and whatever standard-error data comes in between, the loop
    ends and the buffer holds the delivered bytes in the order they came.
    What the worker sends afterwards is not read. *)
Theorem Read_complete (pixelSize numberOfPixels : nat)
    (pipe later : list pipe_data) (data : list ascii) :
  Forall (λ e, is_abnormal e = false) pipe →
  length (stdout_bytes pipe) = pixelSize * numberOfPixels →
  length data = pixelSize * numberOfPixels →
  ∃ errorMessage,
    Read_transfer pixelSize numberOfPixels (pipe ++ later) data
    = Read_done (stdout_bytes pipe) errorMessage.
Proof.
  intros Hpipe Hbytes Hdata. unfold Read_transfer.
  exact (Read_loop_delivers pipe later [] data [] _ Hpipe Hbytes Hdata).
Qed.

(** Three bytes in two chunks, with diagnostic text in between. *)
Lemma Read_complete_two_chunks :
  ∃ errorMessage,
    Read_transfer 1 3
      ([Pipe_STDOUT (str "a"); Pipe_STDERR (str "x"); Pipe_STDOUT (str "bc")]
       ++ [])
      (str "...")
    = Read_done
        (stdout_bytes
           [Pipe_STDOUT (str "a"); Pipe_STDERR (str "x"); Pipe_STDOUT (str "bc")])
        errorMessage.
Proof.
  apply (Read_complete 1 3
           [Pipe_STDOUT (str "a"); Pipe_STDERR (str "x"); Pipe_STDOUT (str "bc")]
           [] (str "...")).
  - repeat constructor.
  - reflexivity.
  - reflexivity.
Defined.

Example Read_byte_by_byte :
  Read_transfer 1 3
    [Pipe_STDOUT (str "a"); Pipe_STDOUT (str "b"); Pipe_STDOUT (str "c")]
    (str "...")
  = Read_done (str "abc") []
  ∧ Read_transfer 1 3 [Pipe_STDOUT (str "abc")] (str "...")
    = Read_done (str "abc") [].
Proof. by vm_compute. Qed.

(** ** [valueOfString<bool>] *)

(** C2, as the code has it.  The numeric attempt comes first and its value
    is returned when it succeeds; otherwise the attempt on the names [true]
    and [false] follows on what the first left unread, and the value it
    leaves is returned whether it succeeds or not.  No string makes the
    conversion throw: the text [maybe], for one, gives [false]. *)
Theorem valueOfString_bool_returns (s : list ascii) :
  valueOfString_bool s
  = Returned (if (bool_numeric_attempt s).1.2
              then (bool_alpha_attempt s).1.1
              else (bool_numeric_attempt s).1.1)
  ∧ is_thrown (valueOfString_bool s) = false
  ∧ valueOfString_bool (str "1") = Returned true
  ∧ valueOfString_bool (str "0") = Returned false
  ∧ valueOfString_bool (str "true") = Returned true
  ∧ valueOfString_bool (str "false") = Returned false
  ∧ valueOfString_bool (str "maybe") = Returned false.
Proof.
  assert (valueOfString_bool s
          = Returned (if (bool_numeric_attempt s).1.2
                      then (bool_alpha_attempt s).1.1
                      else (bool_numeric_attempt s).1.1)) as Heq.
  { unfold valueOfString_bool.
    destruct (bool_numeric_attempt s) as [[res failed] rest] eqn:Hnum.
    cbn [fst snd]. destruct failed; [| done].
    by destruct (bool_alpha_attempt s) as [[res' failed'] rest']. }
  split_and!; [exact Heq | by rewrite Heq | done..].
Qed.

Lemma skipws_head s c rest : skipws s = c :: rest → isspace c = false.
Proof.
  induction s as [|x s IH]; simpl; [done |].
  destruct (isspace x) eqn:Hx; [done |]. by intros [= <- _].
Qed.

(** The default at work: a text that starts (after white space) with
    neither a sign nor a digit gives [true] when it starts with the name
    [true], and [false] in every other case. *)
Lemma valueOfString_bool_text s c rest :
  skipws s = c :: rest →
  c ≠ "-"%char → c ≠ "+"%char → isdigit c = false →
  valueOfString_bool s = Returned (starts_with (str "true") (skipws s)).
Proof.
  intros Hs Hminus Hplus Hdigit.
  pose proof (skipws_head s c rest Hs) as Hspace.
  assert (bool_numeric_attempt s = (false, true, c :: rest)) as Hnum.
  { unfold bool_numeric_attempt, extract_bool_numeric, num_get_integer.
    rewrite Hs. rewrite !decide_False by done.
    cbn [span_digits]. by rewrite Hdigit. }
  unfold valueOfString_bool, bool_alpha_attempt. rewrite Hnum.
  unfold extract_bool_alpha. rewrite Hs.
  assert (skipws (c :: rest) = c :: rest) as -> by (simpl; by rewrite Hspace).
  destruct (starts_with (str "true") (c :: rest)); [done |].
  by destruct (starts_with (str "false") (c :: rest)).
Qed.

(** C2 as stated fails: on the text [maybe] neither attempt succeeds, and
    the conversion returns [false] instead of throwing. *)
Lemma valueOfString_bool_maybe :
  (bool_numeric_attempt (str "maybe")).1.2 = true
  ∧ (bool_alpha_attempt (str "maybe")).1.2 = true
  ∧ valueOfString_bool (str "maybe") = Returned false
  ∧ is_thrown (valueOfString_bool (str "maybe")) = false.
Proof. by vm_compute. Qed.

(** The primary template does throw on such a text. *)
Example valueOfString_int_maybe :
  valueOfString_int (str "maybe") = Thrown (conversion_error (str "maybe")).
Proof. by vm_compute. Qed.

(** ** The command of [Write] *)

Lemma to_int_small z : (- 2 ^ 31 ≤ z < 2 ^ 31)%Z → to_int z = z.
Proof. intros Hz. unfold to_int. rewrite Z.mod_small; lia. Qed.

(** [numPlanes] does not depend on the command text built along with it. *)
Lemma Write_axis_numPlanes region regionDim command planes dim :
  (Write_axis region regionDim (command, planes) dim).2
  = if dim <? regionDim then
      if (dim =? cIndex) || (dim =? zIndex) || (dim =? tIndex)
      then to_int (planes * to_int (to_int (GetSize region dim)
                                    - to_int (GetIndex region dim)))
      else planes
    else planes.
Proof.
  unfold Write_axis. destruct (dim <? regionDim); [| done].
  by destruct ((dim =? cIndex) || (dim =? zIndex) || (dim =? tIndex)).
Qed.

Lemma numPlanes_unfold region :
  numPlanes region =
  let plane d planes :=
    if d <? m_ImageDimension region then
      to_int (planes * to_int (to_int (GetSize region d)
                               - to_int (GetIndex region d)))
    else planes in
  plane 4 (plane 3 (plane 2 1%Z)).
Proof.
  unfold numPlanes, Write_axes. cbn [seq fold_left].
  set (st0 := Write_axis region (m_ImageDimension region) ([], 1%Z) 0).
  assert (st0.2 = 1%Z) as H0.
  { subst st0. rewrite Write_axis_numPlanes. by destruct (0 <? _). }
  destruct st0 as [c0 n0]. simpl in H0. subst n0.
  set (st1 := Write_axis region (m_ImageDimension region) (c0, 1%Z) 1).
  assert (st1.2 = 1%Z) as H1.
  { subst st1. rewrite Write_axis_numPlanes. by destruct (1 <? _). }
  destruct st1 as [c1 n1]. simpl in H1. subst n1.
  set (st2 := Write_axis region (m_ImageDimension region) (c1, 1%Z) 2).
  pose proof (Write_axis_numPlanes region (m_ImageDimension region) c1 1%Z 2) as H2.
  fold st2 in H2. destruct st2 as [c2 n2]. simpl in H2.
  set (st3 := Write_axis region (m_ImageDimension region) (c2, n2) 3).
  pose proof (Write_axis_numPlanes region (m_ImageDimension region) c2 n2 3) as H3.
  fold st3 in H3. destruct st3 as [c3 n3]. simpl in H3.
  rewrite Write_axis_numPlanes. cbn zeta. simpl (_ =? _). simpl (_ || _).
  by rewrite H3, H2.
Qed.

(** X24.  Where the region starts at index 0 on the axes beyond Y (and its
    extents are positive and their product fits an [int]), [numPlanes] is
    the product of the extents. *)
Lemma numPlanes_from_origin region :
  (∀ d, 2 ≤ d < 5 → d < m_ImageDimension region →
        GetIndex region d = 0%Z ∧ (0 < GetSize region d)%Z) →
  (planes_of_extents region < 2 ^ 31)%Z →
  numPlanes region = planes_of_extents region.
Proof.
  intros Hregion Hfits. rewrite numPlanes_unfold. cbn zeta.
  assert (∀ d planes, 2 ≤ d < 5 → (0 < planes)%Z →
            (planes * extent region d < 2 ^ 31)%Z →
            (if d <? m_ImageDimension region
             then to_int (planes * to_int (to_int (GetSize region d)
                                           - to_int (GetIndex region d)))
             else planes)
            = (planes * extent region d)%Z) as Hplane.
  { intros d planes Hd Hpos Hsmall. unfold extent in *.
    destruct (d <? m_ImageDimension region) eqn:Hdim; [| lia].
    apply Nat.ltb_lt in Hdim. destruct (Hregion d Hd Hdim) as [-> Hsize].
    change (to_int 0) with 0%Z. rewrite Z.sub_0_r.
    assert (GetSize region d < 2 ^ 31)%Z by nia.
    rewrite (to_int_small (GetSize region d)) by lia.
    rewrite (to_int_small (GetSize region d)) by lia.
    apply to_int_small. nia. }
  assert (∀ d, 2 ≤ d < 5 → (0 < extent region d)%Z) as Hpos.
  { intros d Hd. unfold extent.
    destruct (d <? m_ImageDimension region) eqn:Hdim; [| lia].
    apply Nat.ltb_lt in Hdim. by destruct (Hregion d Hd Hdim). }
  unfold planes_of_extents in *.
  pose proof (Hpos 2 ltac:(lia)). pose proof (Hpos 3 ltac:(lia)).
  pose proof (Hpos 4 ltac:(lia)).
  assert (extent region 2 * extent region 3 < 2 ^ 31)%Z by nia.
  assert (extent region 2 < 2 ^ 31)%Z by nia.
  rewrite (Hplane 2 1%Z) by lia. rewrite Z.mul_1_l.
  rewrite (Hplane 3) by lia.
  rewrite (Hplane 4) by nia.
  done.
Qed.

(** C1 fails on the code at a region that does not start at plane 0:
    [numPlanes] is multiplied by [size - index], so the region of three
    planes that starts at plane 1 drives two planes, not three. *)
Theorem numPlanes_subtracts_index :
  numPlanes region_from_plane_1 = 2%Z
  ∧ planes_driven region_from_plane_1 = 2
  ∧ planes_of_extents region_from_plane_1 = 3%Z.
Proof. by vm_compute. Qed.

Lemma tabs_app a b : tabs (a ++ b) = tabs a + tabs b.
Proof. induction a as [|c a IH]; simpl; [done | rewrite IH; lia]. Qed.

Lemma tabs_string_of_uint d : tabs (str (NilEmpty.string_of_uint d)) = 0.
Proof. induction d; simpl; done. Qed.

Lemma tabs_toString z : tabs (toString z) = 0.
Proof.
  unfold toString. destruct (Z.to_int z); simpl; apply tabs_string_of_uint.
Qed.

(** X18.  Every round of the lookup-table loop that goes through appends
    three tabs to the command when the depth is 8, and four otherwise. *)
Lemma Write_lut_entries_tabs dict LUTBits n : ∀ i command command',
  Write_lut_entries dict LUTBits i n command = Returned command' →
  tabs command' = tabs command + (if (LUTBits =? 8)%Z then 3 else 4) * n.
Proof.
  induction n as [|n IH]; intros i command command'; cbn [Write_lut_entries].
  - intros [= <-]. lia.
  - destruct (LUTBits =? 8)%Z eqn:Hbits.
    + destruct (GetTypedMetaData_int dict (str "LUTR" ++ toString i));
        cbn [mbind outcome_bind]; [| done].
      destruct (GetTypedMetaData_int dict (str "LUTG" ++ toString i));
        cbn [mbind outcome_bind]; [| done].
      destruct (GetTypedMetaData_int dict (str "LUTB" ++ toString i));
        cbn [mbind outcome_bind]; [| done].
      intros Hrest. apply IH in Hrest. rewrite Hrest.
      rewrite !tabs_app, !tabs_toString. simpl. lia.
    + destruct (GetTypedMetaData_short dict (str "LUTR" ++ toString i));
        cbn [mbind outcome_bind]; [| done].
      destruct (GetTypedMetaData_short dict (str "LUTG" ++ toString i));
        cbn [mbind outcome_bind]; [| done].
      destruct (GetTypedMetaData_short dict (str "LUTB" ++ toString i));
        cbn [mbind outcome_bind]; [| done].
      intros Hrest. apply IH in Hrest. rewrite Hrest.
      rewrite !tabs_app, !tabs_toString. simpl. lia.
Qed.

(** C5 fails on the code at a depth other than 8: the round for an entry
    ends with one more tab, so the entry takes four fields of the command,
    the fourth empty, where the same table declared with depth 8 takes
    three. *)
Theorem Write_lut_extra_field :
  Write_lut lut16 []
  = Returned (str "1" ++ [TAB] ++ str "16" ++ [TAB] ++ str "1" ++ [TAB]
              ++ str "10" ++ [TAB] ++ str "20" ++ [TAB] ++ str "30" ++ [TAB]
              ++ [TAB])
  ∧ (fields <$> (match Write_lut lut16 [] with
                 | Returned c => Some c | Thrown _ => None end))
    = Some [str "1"; str "16"; str "1"; str "10"; str "20"; str "30"; []; []]
  ∧ (fields <$> (match Write_lut lut8 [] with
                 | Returned c => Some c | Thrown _ => None end))
    = Some [str "1"; str "8"; str "1"; str "10"; str "20"; str "30"; []].
Proof. by vm_compute. Qed.


(** * More of the bridge *)

(** ** Numbers as text *)

Section numbers_as_text.
Import Decimal.

Lemma span_digits_uint d :
  span_digits (str (NilEmpty.string_of_uint d))
  = (str (NilEmpty.string_of_uint d), []).
Proof. induction d; simpl; [done | by rewrite IHd..]. Qed.

Lemma digits_value_acc d : ∀ acc,
  fold_left (λ acc c, (10 * acc + Z.of_nat (nat_of_ascii c - 48))%Z)
    (str (NilEmpty.string_of_uint d)) (Z.pos acc)
  = Z.pos (Pos.of_uint_acc d acc).
Proof.
  unfold str.
  induction d; intros acc; [done | cbn -[Z.mul Z.add Pos.mul Pos.add]..];
    match goal with
    | |- context [Z.of_nat ?n] =>
        let v := eval vm_compute in (Z.of_nat n) in change (Z.of_nat n) with v
    end;
    rewrite <- IHd; f_equal; lia.
Qed.

Lemma digits_value_uint d :
  digits_value (str (NilEmpty.string_of_uint d)) = Z.of_N (Pos.of_uint d).
Proof.
  unfold digits_value.
  induction d; [done | exact IHd | cbn -[Z.mul Z.add Pos.mul Pos.add]..];
    by rewrite <- digits_value_acc.
Qed.

Lemma digits_of_positive p :
  ∃ c r, str (NilEmpty.string_of_uint (Pos.to_uint p)) = c :: r
         ∧ isdigit c = true.
Proof.
  pose proof (DecimalPos.Unsigned.to_uint_nonnil p) as Hnil.
  destruct (Pos.to_uint p); [done | simpl; eauto..].
Qed.

Lemma isdigit_plain c :
  isdigit c = true →
  isspace c = false ∧ c ≠ "-"%char ∧ c ≠ "+"%char.
Proof.
  intros Hc. split_and!.
  - unfold isdigit, isspace in *.
    apply andb_true_iff in Hc as [H1%Nat.leb_le H2%Nat.leb_le].
    apply orb_false_iff. split.
    + apply Nat.eqb_neq. lia.
    + apply andb_false_iff. right. apply Nat.leb_gt. lia.
  - by intros ->.
  - by intros ->.
Qed.

(** What [num_get] reads back from the digits of a positive number. *)
Lemma num_get_digits lo hi p :
  num_get_integer lo hi (str (NilEmpty.string_of_uint (Pos.to_uint p)))
  = if (Z.pos p <? lo)%Z then (lo, true, [])
    else if (hi <? Z.pos p)%Z then (hi, true, [])
    else (Z.pos p, false, []).
Proof.
  destruct (digits_of_positive p) as (c & r & Hstr & Hc).
  destruct (isdigit_plain c Hc) as (_ & Hminus & Hplus).
  unfold num_get_integer. rewrite Hstr.
  rewrite !decide_False by done. rewrite <- Hstr.
  rewrite span_digits_uint, digits_value_uint, DecimalPos.Unsigned.of_to.
  rewrite Hstr. done.
Qed.

Lemma num_get_minus_digits lo hi p :
  num_get_integer lo hi
    ("-"%char :: str (NilEmpty.string_of_uint (Pos.to_uint p)))
  = if (Z.neg p <? lo)%Z then (lo, true, [])
    else if (hi <? Z.neg p)%Z then (hi, true, [])
    else (Z.neg p, false, []).
Proof.
  destruct (digits_of_positive p) as (c & r & Hstr & Hc).
  unfold num_get_integer. rewrite decide_True by done.
  rewrite span_digits_uint, digits_value_uint, DecimalPos.Unsigned.of_to.
  rewrite Hstr. done.
Qed.
End numbers_as_text.

Lemma valueOfString_integer_toString (lo hi z : Z) :
  valueOfString_integer lo hi (toString z)
  = if ((lo <=? z) && (z <=? hi))%Z then Returned z
    else Thrown (conversion_error (toString z)).
Proof.
  destruct z as [|p|p].
  { change (toString 0) with ["0"%char].
    unfold valueOfString_integer, extract_integer.
    change (skipws ["0"%char]) with ["0"%char]. cbv iota.
    assert (num_get_integer lo hi ["0"%char]
            = if (0 <? lo)%Z then (lo, true, [])
              else if (hi <? 0)%Z then (hi, true, [])
              else (0%Z, false, [])) as -> by done.
    destruct (0 <? lo)%Z eqn:Hlo, (hi <? 0)%Z eqn:Hhi;
      destruct (lo <=? 0)%Z eqn:Hlo', (0 <=? hi)%Z eqn:Hhi'; simpl; try done; lia. }
  all: unfold valueOfString_integer, extract_integer, toString;
    cbn [Z.to_int NilEmpty.string_of_int].
  - destruct (digits_of_positive p) as (c & r & Hstr & Hc).
    destruct (isdigit_plain c Hc) as (Hspace & _ & _).
    assert (skipws (str (NilEmpty.string_of_uint (Pos.to_uint p)))
            = str (NilEmpty.string_of_uint (Pos.to_uint p))) as ->
      by (rewrite Hstr; simpl; by rewrite Hspace).
    rewrite num_get_digits. rewrite Hstr at 1.
    destruct (Z.pos p <? lo)%Z eqn:Hlo, (hi <? Z.pos p)%Z eqn:Hhi;
      destruct (lo <=? Z.pos p)%Z eqn:Hlo', (Z.pos p <=? hi)%Z eqn:Hhi';
      simpl; try done; lia.
  - change (str (String "-" (NilEmpty.string_of_uint (Pos.to_uint p))))
      with ("-"%char :: str (NilEmpty.string_of_uint (Pos.to_uint p))).
    cbn [skipws]. change (isspace "-") with false. cbn iota.
    rewrite num_get_minus_digits.
    destruct (Z.neg p <? lo)%Z eqn:Hlo, (hi <? Z.neg p)%Z eqn:Hhi;
      destruct (lo <=? Z.neg p)%Z eqn:Hlo', (Z.neg p <=? hi)%Z eqn:Hhi';
      simpl; try done; lia.
Qed.

(** X1.  Reading back a number that [toString] wrote gives the number when
    it is in the range of the type read, and throws the conversion error
    when it is not. *)
Theorem valueOfString_toString (lo hi z : Z) :
  valueOfString_integer lo hi (toString z)
  = if ((lo <=? z) && (z <=? hi))%Z then Returned z
    else Thrown (conversion_error (toString z)).
Proof. apply valueOfString_integer_toString. Qed.

(** X2.  A key that the dictionary lacks reads as the empty text: the
    boolean read gives [false] without an error, each integer read throws
    the conversion error. *)
Theorem GetTypedMetaData_missing_key (dict : MetaDataDictionary)
    (key : list ascii) :
  dict !! key = None →
  GetTypedMetaData_bool dict key = Returned false
  ∧ GetTypedMetaData_int dict key = Thrown (conversion_error [])
  ∧ GetTypedMetaData_short dict key = Thrown (conversion_error [])
  ∧ GetTypedMetaData_long dict key = Thrown (conversion_error []).
Proof.
  intros Hkey.
  unfold GetTypedMetaData_bool, GetTypedMetaData_int, GetTypedMetaData_short,
    GetTypedMetaData_long, ExposeMetaData.
  rewrite Hkey. done.
Qed.

Lemma GetTypedMetaData_missing_key_empty :
  GetTypedMetaData_bool ∅ (str "UseLUT") = Returned false
  ∧ GetTypedMetaData_int ∅ (str "UseLUT") = Thrown (conversion_error [])
  ∧ GetTypedMetaData_short ∅ (str "UseLUT") = Thrown (conversion_error [])
  ∧ GetTypedMetaData_long ∅ (str "UseLUT") = Thrown (conversion_error []).
Proof. apply (GetTypedMetaData_missing_key ∅ (str "UseLUT")). done. Defined.

(** ** Frames *)

Section frames.
Implicit Types (pipe taken rest : list pipe_data).
Implicit Types (imgInfo errorMessage body text : list ascii).

Lemma ends_with_blank_line_spec imgInfo :
  ends_with_blank_line imgInfo = true ↔ ∃ body, imgInfo = body ++ [LF; LF].
Proof.
  unfold ends_with_blank_line, substr. split.
  - intros [Hlen Hend%bool_decide_eq_true]%andb_true_iff.
    apply Nat.leb_le in Hlen.
    exists (take (length imgInfo - 2) imgInfo).
    rewrite <- Hend.
    rewrite (take_ge (drop _ _)) by (rewrite length_drop; lia).
    by rewrite take_drop.
  - intros [body ->]. rewrite length_app. change (length [LF; LF]) with 2.
    apply andb_true_iff. split; [apply Nat.leb_le; lia |].
    apply bool_decide_eq_true.
    replace (length body + 2 - 2) with (length body) by lia.
    by rewrite drop_app_length.
Qed.

Lemma wait_frame_arrived pipe : ∀ imgInfo0 errorMessage0 imgInfo errorMessage rest,
  wait_frame pipe imgInfo0 errorMessage0 = Arrived imgInfo errorMessage rest →
  ∃ taken,
    pipe = taken ++ rest
    ∧ Forall (λ e, is_abnormal e = false) taken
    ∧ imgInfo = imgInfo0 ++ stdout_bytes taken
    ∧ errorMessage = errorMessage0 ++ stderr_bytes taken
    ∧ ends_with_blank_line imgInfo = true.
Proof.
  induction pipe as [|e pipe IH];
    intros imgInfo0 errorMessage0 imgInfo errorMessage rest; simpl; [done |].
  destruct e as [pipedata|pipedata|]; [| |done].
  - destruct (ends_with_blank_line (imgInfo0 ++ pipedata)) eqn:Hend.
    + intros [= <- <- <-]. exists [Pipe_STDOUT pipedata].
      split_and!; [done | by repeat constructor | | | done].
      * unfold stdout_bytes. simpl. by rewrite app_nil_r.
      * unfold stderr_bytes. simpl. by rewrite app_nil_r.
    + intros (taken & -> & Hok & -> & -> & Hends)%IH.
      exists (Pipe_STDOUT pipedata :: taken).
      split_and!; [done | by constructor | | done | done].
      unfold stdout_bytes. simpl. by rewrite app_assoc.
  - intros (taken & -> & Hok & -> & -> & Hends)%IH.
    exists (Pipe_STDERR pipedata :: taken).
    split_and!; [done | by constructor | done | | done].
    unfold stderr_bytes. simpl. by rewrite app_assoc.
Qed.

(** A text that ends with a linefeed is made of lines. *)
Lemma text_of_lines_exists body :
  ∃ line lines,
    body ++ [LF] = text_of_lines (line :: lines)
    ∧ Forall (λ l, LF ∉ l) (line :: lines).
Proof.
  induction body as [|c body (line & lines & Htext & Hlines)].
  - exists [], []. split; [done |]. repeat constructor. apply not_elem_of_nil.
  - destruct (decide (c = LF)) as [->|Hc].
    + exists [], (line :: lines). split.
      * change ((LF :: body) ++ [LF]) with (LF :: (body ++ [LF])).
        by rewrite Htext.
      * constructor; [apply not_elem_of_nil | done].
    + exists (c :: line), lines. split.
      * change ((c :: body) ++ [LF]) with (c :: (body ++ [LF])).
        by rewrite Htext.
      * apply Forall_cons in Hlines as [Hline Hlines].
        constructor; [| done]. apply not_elem_of_cons. split; [congruence | done].
Qed.

Lemma frame_of_lines_exists body :
  ∃ lines,
    body ++ [LF; LF] = frame_of_lines lines ∧ Forall (λ l, LF ∉ l) lines.
Proof.
  destruct (text_of_lines_exists body) as (line & lines & Htext & Hlines).
  exists (line :: lines). split; [| done].
  unfold frame_of_lines. rewrite <- Htext. by rewrite <- app_assoc.
Qed.

Lemma store_pairs_subseteq (pairs : list (list ascii * list ascii))
    (dict : MetaDataDictionary) :
  dict ⊆ store_pairs pairs dict.
Proof.
  apply map_subseteq_spec. intros key v Hkey.
  by rewrite store_pairs_lookup, Hkey.
Qed.

Lemma first_line_cons (line more : list ascii) :
  LF ∉ line → first_line (line ++ LF :: more) = line.
Proof.
  intros Hline. unfold first_line.
  pose proof (find_line [] line more LF Hline) as Hfind. simpl in Hfind.
  rewrite Hfind. exact (substr_line [] line (LF :: more)).
Qed.
End frames.

(** X3.  When the wait for a frame ends with a frame, the frame is the
    standard-output data of the answers taken, in order, it ends with two
    linefeeds, no answer taken was an abnormal signal, and the diagnostic
    text is the standard-error data of the answers taken. *)
Theorem wait_frame_frame (pipe rest : list pipe_data)
    (imgInfo errorMessage : list ascii) :
  wait_frame pipe [] [] = Arrived imgInfo errorMessage rest →
  ∃ taken body,
    pipe = taken ++ rest
    ∧ Forall (λ e, is_abnormal e = false) taken
    ∧ imgInfo = stdout_bytes taken
    ∧ errorMessage = stderr_bytes taken
    ∧ imgInfo = body ++ [LF; LF].
Proof.
  intros (taken & Hpipe & Hok & Hout & Herr & Hend)%wait_frame_arrived.
  apply ends_with_blank_line_spec in Hend as [body Hbody].
  by exists taken, body.
Qed.

Lemma wait_frame_frame_true :
  ∃ taken body,
    [Pipe_STDOUT (str "true"); Pipe_STDERR (str "log");
     Pipe_STDOUT [LF; LF]; Pipe_STDOUT (str "next")]
    = taken ++ [Pipe_STDOUT (str "next")]
    ∧ Forall (λ e, is_abnormal e = false) taken
    ∧ str "true" ++ [LF; LF] = stdout_bytes taken
    ∧ str "log" = stderr_bytes taken
    ∧ str "true" ++ [LF; LF] = body ++ [LF; LF].
Proof.
  apply (wait_frame_frame
           [Pipe_STDOUT (str "true"); Pipe_STDERR (str "log");
            Pipe_STDOUT [LF; LF]; Pipe_STDOUT (str "next")]).
  reflexivity.
Defined.

(** X4.  Every frame that the wait delivers is read to its end by the
    metadata loop, within as many rounds as the frame has characters, and
    the dictionary that results contains the dictionary it started from. *)
Theorem wait_frame_then_fill (pipe rest : list pipe_data)
    (imgInfo errorMessage : list ascii) (dict : MetaDataDictionary)
    (fuel : nat) :
  wait_frame pipe [] [] = Arrived imgInfo errorMessage rest →
  length imgInfo ≤ fuel →
  ∃ dict', fill_dictionary fuel imgInfo dict = Some dict' ∧ dict ⊆ dict'.
Proof.
  intros (taken & _ & _ & _ & _ & Hend)%wait_frame_arrived Hfuel.
  apply ends_with_blank_line_spec in Hend as [body ->].
  destruct (frame_of_lines_exists body) as (lines & Hframe & Hlines).
  rewrite Hframe in *. eexists. split.
  - exact (parse_loop_frame lines [] dict fuel Hlines Hfuel).
  - apply store_pairs_subseteq.
Qed.

Lemma wait_frame_then_fill_SizeX :
  ∃ dict',
    fill_dictionary 10 (str "SizeX" ++ [LF] ++ str "10" ++ [LF; LF]) ∅
    = Some dict' ∧ ∅ ⊆ dict'.
Proof.
  apply (wait_frame_then_fill
           [Pipe_STDOUT (str "SizeX" ++ [LF]); Pipe_STDOUT (str "10" ++ [LF; LF])]
           [] _ [] ∅ 10).
  - reflexivity.
  - simpl. lia.
Defined.

(** X5.  The wait ends broken at the first abnormal signal that comes
    before a frame is complete, with the diagnostic text read so far; when
    the answers run out before a frame is complete it goes on waiting.  It
    never delivers a text that does not end with two linefeeds. *)
Theorem wait_frame_incomplete (taken later : list pipe_data) :
  Forall (λ e, is_abnormal e = false) taken →
  (∀ n, ends_with_blank_line (stdout_bytes (take n taken)) = false) →
  wait_frame (taken ++ Pipe_other :: later) [] [] = Broke (stderr_bytes taken)
  ∧ wait_frame taken [] [] = Waiting.
Proof.
  intros Htaken Hnever.
  assert (∀ imgInfo0 errorMessage0,
            (∀ n, ends_with_blank_line (imgInfo0 ++ stdout_bytes (take n taken))
                  = false) →
            wait_frame (taken ++ Pipe_other :: later) imgInfo0 errorMessage0
            = Broke (errorMessage0 ++ stderr_bytes taken)
            ∧ wait_frame taken imgInfo0 errorMessage0 = Waiting) as Hgen.
  { clear Hnever. induction taken as [|e taken IH];
      intros imgInfo0 errorMessage0 Hnever.
    - simpl. split; [| done]. unfold stderr_bytes. simpl. by rewrite app_nil_r.
    - apply Forall_cons in Htaken as [He Htaken].
      destruct e as [pipedata|pipedata|]; [| |done]; simpl.
      + pose proof (Hnever 1) as H1. unfold stdout_bytes in H1. simpl in H1.
        rewrite app_nil_r in H1. rewrite H1.
        destruct (IH Htaken (imgInfo0 ++ pipedata) errorMessage0) as [Hb Hw].
        { intros n. specialize (Hnever (S n)). unfold stdout_bytes in *.
          simpl in Hnever. by rewrite <- app_assoc. }
        split; [| done]. rewrite Hb. unfold stderr_bytes. done.
      + destruct (IH Htaken imgInfo0 (errorMessage0 ++ pipedata)) as [Hb Hw].
        { intros n. specialize (Hnever (S n)). unfold stdout_bytes in *.
          by simpl in Hnever. }
        split; [| done]. rewrite Hb. unfold stderr_bytes. simpl.
        by rewrite app_assoc. }
  apply (Hgen [] []). intros n. apply Hnever.
Qed.

Lemma wait_frame_incomplete_one_linefeed :
  wait_frame ([Pipe_STDERR (str "boom"); Pipe_STDOUT (str "true" ++ [LF])]
              ++ Pipe_other :: [])
    [] []
  = Broke (stderr_bytes [Pipe_STDERR (str "boom"); Pipe_STDOUT (str "true" ++ [LF])])
  ∧ wait_frame [Pipe_STDERR (str "boom"); Pipe_STDOUT (str "true" ++ [LF])] [] []
    = Waiting.
Proof.
  apply (wait_frame_incomplete
           [Pipe_STDERR (str "boom"); Pipe_STDOUT (str "true" ++ [LF])] []).
  - repeat constructor.
  - intros [|[|[|n]]]; reflexivity.
Defined.

(** ** The probes *)

Lemma CreateJavaProcess_returned r io :
  (CreateJavaProcess r io).1.2 = Returned () →
  m_Process (CreateJavaProcess r io).2 = Some State_Executing.
Proof.
  destruct (decide (m_Process io = Some State_Executing)) as [Hlive|Hnot].
  - unfold CreateJavaProcess. by rewrite Hlive.
  - rewrite CreateJavaProcess_spawns by done. cbn [fst snd m_Process].
    unfold check_spawned. by destruct (spawn_state r).
Qed.

Lemma CreateJavaProcess_live r io :
  live io = true → CreateJavaProcess r io = ([], Returned (), io).
Proof.
  unfold live. intros Hlive%bool_decide_eq_true.
  unfold CreateJavaProcess. by rewrite Hlive.
Qed.

(** X6.  When the exchange of a probe breaks, the probe throws the
    "exited abnormally" error with the diagnostic text, after a teardown:
    its last two calls delete the process handle and close the pipe end,
    and it leaves the bridge without a process.  The probe that comes next
    starts by spawning a worker. *)
Theorem probe_broken (verb : string) (r : spawn_report)
    (observed : ProcessState) (pipe : list pipe_data) (io : SCIFIOImageIO)
    (name errorMessage : list ascii) :
  (CreateJavaProcess r io).1.2 = Returned () →
  wait_frame pipe [] [] = Broke errorMessage →
  (probe verb r observed pipe io name).1.2
  = Some (Thrown (exited_abnormally verb errorMessage))
  ∧ (probe verb r observed pipe io name).2
    = {| m_Process := None; m_Pipe_1 := Pipe_closed |}
  ∧ (∃ before,
       (probe verb r observed pipe io name).1.1
       = before ++ [Supervise Process_Delete; Supervise Call_close_write_end])
  ∧ (∀ r' observed' pipe' name', ∃ after,
       (probe verb r' observed' pipe' (probe verb r observed pipe io name).2
          name').1.1
       = map Supervise spawn_calls ++ after).
Proof.
  intros Hstarted Hbroke.
  pose proof (CreateJavaProcess_returned r io Hstarted) as Hhandle.
  assert (probe verb r observed pipe io name
          = (map Supervise (CreateJavaProcess r io).1.1
             ++ [Send (str verb ++ [TAB] ++ name ++ [LF])]
             ++ map Supervise
                  ((if decide (observed = State_Executing)
                    then [Process_Kill; Process_WaitForExit] else [])
                   ++ [Process_Delete; Call_close_write_end]),
             Some (Thrown (exited_abnormally verb errorMessage)),
             {| m_Process := None; m_Pipe_1 := Pipe_closed |})) as Hprobe.
  { unfold probe.
    destruct (CreateJavaProcess r io) as [[calls started] io'].
    cbn [fst snd] in *. subst started. rewrite Hbroke.
    unfold destroy_broken, DestroyJavaProcess. rewrite Hhandle. cbn.
    by rewrite <- app_assoc. }
  rewrite Hprobe. cbn [fst snd]. split_and!; [done | done | |].
  - eexists. rewrite map_app, !app_assoc. done.
  - intros r' observed' pipe' name'. unfold probe.
    rewrite CreateJavaProcess_spawns by done. cbn [m_Process app].
    destruct (check_spawned r'); [| by eexists; rewrite app_nil_r].
    destruct (wait_frame pipe' [] []); [| destruct (destroy_broken _ _) |];
      cbn [fst snd]; rewrite <- ?app_assoc; by eexists.
Qed.

Lemma probe_broken_canRead :
  let r := {| spawn_state := State_Executing; exit_value := 0;
              error_string := []; exception_string := [] |} in
  let pipe := [Pipe_STDERR (str "no such file"); Pipe_other] in
  (CanReadFile r State_Exited pipe constructed (str "a.tif")).1.2
  = Some (Thrown (exited_abnormally "canRead" (str "no such file")))
  ∧ (CanReadFile r State_Exited pipe constructed (str "a.tif")).2
    = {| m_Process := None; m_Pipe_1 := Pipe_closed |}
  ∧ (∃ before,
       (CanReadFile r State_Exited pipe constructed (str "a.tif")).1.1
       = before ++ [Supervise Process_Delete; Supervise Call_close_write_end])
  ∧ (∀ r' observed' pipe' name', ∃ after,
       (CanReadFile r' observed' pipe'
          (CanReadFile r State_Exited pipe constructed (str "a.tif")).2
          name').1.1
       = map Supervise spawn_calls ++ after).
Proof.
  intros r pipe.
  apply (probe_broken "canRead" r State_Exited pipe constructed (str "a.tif")
           (str "no such file")).
  - reflexivity.
  - reflexivity.
Defined.

(** X7.  With a live worker a probe spawns nothing: all it does is send its
    one command line, the verb, a tab, the name and a linefeed.  When the
    reply arrives, whatever its text, the probe returns a boolean (the
    conversion of the reply's first line) and leaves the bridge as it was. *)
Theorem probe_reuses_worker (verb : string) (r : spawn_report)
    (observed : ProcessState) (pipe rest : list pipe_data)
    (io : SCIFIOImageIO) (name line more errorMessage : list ascii) :
  live io = true →
  LF ∉ line →
  wait_frame pipe [] [] = Arrived (line ++ LF :: more) errorMessage rest →
  probe verb r observed pipe io name
  = ([Send (str verb ++ [TAB] ++ name ++ [LF])],
     Some (valueOfString_bool line), io)
  ∧ is_thrown (valueOfString_bool line) = false.
Proof.
  intros Hlive Hline Hwait. split.
  - unfold probe. rewrite CreateJavaProcess_live by done.
    rewrite Hwait. by rewrite first_line_cons.
  - unfold valueOfString_bool.
    destruct (bool_numeric_attempt line) as [[res failed] unread].
    destruct failed; [| done].
    by destruct (bool_alpha_attempt line) as [[res' failed'] unread'].
Qed.

Lemma probe_reuses_worker_true :
  let io := {| m_Process := Some State_Executing; m_Pipe_1 := Pipe_open |} in
  let r := {| spawn_state := State_Error; exit_value := 0;
              error_string := []; exception_string := [] |} in
  CanWriteFile r State_Executing [Pipe_STDOUT (str "true" ++ [LF; LF])] io
    (str "out.tif")
  = ([Send (str "canWrite" ++ [TAB] ++ str "out.tif" ++ [LF])],
     Some (valueOfString_bool (str "true")), io)
  ∧ is_thrown (valueOfString_bool (str "true")) = false.
Proof.
  intros io r.
  apply (probe_reuses_worker "canWrite" r State_Executing
           [Pipe_STDOUT (str "true" ++ [LF; LF])] [] io (str "out.tif")
           (str "true") [LF] []).
  - reflexivity.
  - apply (bool_decide_unpack _). vm_compute. exact I.
  - reflexivity.
Defined.

(** ** The metadata loop on any text *)

Lemma parse_iteration_grows (imgInfo : list ascii) (p0 : nat)
    (dict : MetaDataDictionary) :
  dict ⊆ (parse_iteration imgInfo p0 dict).2
  ∧ (parse_iteration imgInfo p0 dict).2 !! [] = dict !! [].
Proof.
  unfold parse_iteration.
  destruct (decide (line_at imgInfo p0 (find imgInfo LF p0) = []));
    [done |].
  destruct (decide (line_at imgInfo _ (find imgInfo LF _) = [])); [done |].
  cbn [snd]. unfold HasKey, EncapsulateMetaData.
  case_bool_decide as Hkey; [done |].
  split.
  - apply insert_subseteq. destruct (dict !! _) eqn:Hd; [| done].
    exfalso. apply Hkey. eauto.
  - by rewrite lookup_insert_ne.
Qed.

(** X8.  On any text at all, whatever the loop leaves in the dictionary
    contains what was there before, value for value, and the loop makes no
    entry under the empty key. *)
Theorem parse_loop_grows (fuel : nat) (imgInfo : list ascii) :
  ∀ (p0 : nat) (dict dict' : MetaDataDictionary),
    parse_loop fuel imgInfo p0 dict = Some dict' →
    dict ⊆ dict' ∧ dict' !! [] = dict !! [].
Proof.
  induction fuel as [|fuel IH]; intros p0 dict dict'; simpl.
  - destruct (p0 <? length imgInfo); [done |]. by intros [= ->].
  - destruct (p0 <? length imgInfo); [| by intros [= ->]].
    destruct (parse_iteration imgInfo p0 dict) as [p0' dict1] eqn:Hiter.
    intros [Hsub Hempty]%IH.
    pose proof (parse_iteration_grows imgInfo p0 dict) as [Hsub1 Hempty1].
    rewrite Hiter in Hsub1, Hempty1. cbn [snd] in *.
    split; [by transitivity dict1 | congruence].
Qed.

Lemma parse_loop_grows_misaligned :
  ({[ str "SizeX" := str "5" ]} : MetaDataDictionary)
  ⊆ <[ str "10" := str "SizeY" ]> {[ str "SizeX" := str "5" ]}
  ∧ (<[ str "10" := str "SizeY" ]> {[ str "SizeX" := str "5" ]}
     : MetaDataDictionary) !! [] = ({[ str "SizeX" := str "5" ]} : MetaDataDictionary) !! [].
Proof.
  apply (parse_loop_grows 20
           (frame_of_lines [str "SizeX"; []; str "10"; str "SizeY"]) 0).
  vm_compute. reflexivity.
Defined.

(** ** Escapes *)

Lemma unescape_spec_length value :
  length (unescape_spec value) ≤ length value.
Proof.
  remember (length value) as n eqn:Hn. revert value Hn.
  induction n as [n IH] using lt_wf_ind. intros value ->.
  destruct value as [|c [|e r]]; [done | |].
  - simpl. destruct (decide (c = BSL)); simpl; lia.
  - destruct (decide (c = BSL)) as [->|Hc].
    + change (unescape_spec (BSL :: e :: r))
        with (if decide (e = BSL) then BSL :: unescape_spec r
              else if decide (e = "n"%char) then LF :: unescape_spec r
              else unescape_spec r).
      pose proof (IH (length r) ltac:(simpl; lia) r eq_refl).
      destruct (decide (e = BSL)); [simpl; lia |].
      destruct (decide (e = "n"%char)); simpl; lia.
    + assert (unescape_spec (c :: e :: r) = c :: unescape_spec (e :: r)) as ->
        by (simpl; by rewrite decide_False).
      pose proof (IH (length (e :: r)) ltac:(simpl; lia) (e :: r) eq_refl).
      simpl in *. lia.
Qed.

(** X9.  Unescaping never makes a value longer, and leaves a value without
    a backslash as it is. *)
Theorem unescape_shrinks (value : list ascii) :
  length (unescape value) ≤ length value
  ∧ (BSL ∉ value → unescape value = value).
Proof.
  rewrite unescape_refines. split.
  - apply unescape_spec_length.
  - apply unescape_spec_no_escape.
Qed.

Lemma unescape_shrinks_plain :
  length (unescape (str "512 x 512")) ≤ length (str "512 x 512")
  ∧ unescape (str "512 x 512") = str "512 x 512".
Proof.
  destruct (unescape_shrinks (str "512 x 512")) as [Hlen Hplain].
  split; [exact Hlen |]. apply Hplain.
  apply (bool_decide_unpack _). vm_compute. exact I.
Defined.

(** X10.  Every text, linefeeds and backslashes included, can be carried
    as a value: written with a backslash before each backslash and
    backslash-n for each linefeed it fits on one line, and unescaping
    gives the text back. *)
Theorem unescape_escape (value : list ascii) :
  unescape (escape value) = value ∧ LF ∉ escape value.
Proof.
  rewrite unescape_refines. induction value as [|c value [IH Hline]].
  - split; [done | apply not_elem_of_nil].
  - cbn [escape]. destruct (decide (c = BSL)) as [->|Hc].
    + split; [simpl; by rewrite IH |].
      rewrite !not_elem_of_cons. by split_and!.
    + destruct (decide (c = LF)) as [->|Hc'].
      * split; [simpl; by rewrite IH |].
        rewrite !not_elem_of_cons. by split_and!.
      * split.
        -- simpl. rewrite decide_False by done. by rewrite IH.
        -- rewrite not_elem_of_cons. split; [congruence | done].
Qed.

(** ** Runs of the supervisor *)

Lemma count_calls_app c a b :
  count_calls c (a ++ b) = count_calls c a + count_calls c b.
Proof. unfold count_calls. by rewrite filter_app, length_app. Qed.

(** One step keeps the books: handles made and deleted, pipes made and
    closed, and the pipe end open exactly when a handle is held. *)
Lemma run_step_balance io step :
  (is_Some (m_Process io) ↔ m_Pipe_1 io = Pipe_open) →
  count_calls Process_New (run_step io step).1 + held io
  = count_calls Process_Delete (run_step io step).1 + held (run_step io step).2
  ∧ count_calls Call_pipe (run_step io step).1 + held io
  = count_calls Call_close_write_end (run_step io step).1
    + held (run_step io step).2
  ∧ (is_Some (m_Process (run_step io step).2)
     ↔ m_Pipe_1 (run_step io step).2 = Pipe_open).
Proof.
  intros Hinv.
  destruct step as [r| |state]; destruct io as [[[]|] []];
    cbn in *; split_and!; try done;
    try (split; [by eauto | by eauto]);
    try (exfalso; destruct Hinv as [H1 H2]; by (discriminate H1; eauto) || (destruct H2 as [? ?]; done)).
Qed.

Lemma run_steps_balance steps : ∀ io,
  (is_Some (m_Process io) ↔ m_Pipe_1 io = Pipe_open) →
  count_calls Process_New (run_steps io steps).1 + held io
  = count_calls Process_Delete (run_steps io steps).1
    + held (run_steps io steps).2
  ∧ count_calls Call_pipe (run_steps io steps).1 + held io
  = count_calls Call_close_write_end (run_steps io steps).1
    + held (run_steps io steps).2
  ∧ (is_Some (m_Process (run_steps io steps).2)
     ↔ m_Pipe_1 (run_steps io steps).2 = Pipe_open).
Proof.
  induction steps as [|step steps IH]; intros io Hinv; [by cbn |].
  cbn [run_steps].
  destruct (run_step_balance io step Hinv) as (Hnew & Hpipe & Hinv').
  destruct (run_step io step) as [calls io1]. cbn [fst snd] in *.
  destruct (IH io1 Hinv') as (Hnew' & Hpipe' & Hinv'').
  destruct (run_steps io1 steps) as [calls' io2]. cbn [fst snd] in *.
  rewrite !count_calls_app. split_and!; [lia | lia | done].
Qed.

(** X11.  Whatever sequence of [CreateJavaProcess] calls, successful or
    failing, [DestroyJavaProcess] calls and changes of the worker's state a
    bridge goes through from its construction on: every process handle it
    made is deleted, but for the one it holds, if any; every pipe it made
    has its write end closed, but for the pipe of the handle it holds; and
    the write end is open exactly when a handle is held.  No handle and no
    pipe end is ever lost. *)
Theorem supervisor_balance (steps : list supervisor_step) :
  count_calls Process_New (run_steps constructed steps).1
  = count_calls Process_Delete (run_steps constructed steps).1
    + held (run_steps constructed steps).2
  ∧ count_calls Call_pipe (run_steps constructed steps).1
    = count_calls Call_close_write_end (run_steps constructed steps).1
      + held (run_steps constructed steps).2
  ∧ (is_Some (m_Process (run_steps constructed steps).2)
     ↔ m_Pipe_1 (run_steps constructed steps).2 = Pipe_open).
Proof.
  destruct (run_steps_balance steps constructed) as (Hnew & Hpipe & Hinv).
  - cbn. split; [by intros [? ?] | done].
  - change (held constructed) with 0 in *. rewrite !Nat.add_0_r in *. done.
Qed.

(** ** The commands of [Read] and [Write], axis by axis *)

Lemma fold_left_append {A : Type} (f : A → list ascii) (l : list A) :
  ∀ command,
    fold_left (λ command d, command ++ f d) l command
    = command ++ concat (map f l).
Proof.
  induction l as [|d l IH]; intros command; simpl.
  - by rewrite app_nil_r.
  - by rewrite IH, app_assoc.
Qed.

Lemma tabs_concat_map {A : Type} (f : A → list ascii) (l : list A) (n : nat) :
  (∀ d, tabs (f d) = n) → tabs (concat (map f l)) = n * length l.
Proof.
  intros Hf. induction l as [|d l IH]; simpl; [lia |].
  rewrite tabs_app, Hf, IH. lia.
Qed.

Lemma tabs_none (text : list ascii) : TAB ∉ text → tabs text = 0.
Proof.
  induction text as [|c text IH]; [done |].
  intros [Hc Htext]%not_elem_of_cons. simpl.
  rewrite decide_False by done. by rewrite IH.
Qed.

(** X12.  The command of [Read] is the verb, the file, one pair of start
    and extent for every axis up to the larger of 5 and the dimension of
    the region, each field after a tab, and a linefeed; the axes that the
    region lacks are written as start 0, extent 1.  With a file name free
    of tabs that makes one tab more than twice the number of axes. *)
Theorem Read_command_axes (m_FileName : list ascii) (region : ImageIORegion) :
  Read_command m_FileName region
  = str "read" ++ [TAB] ++ m_FileName
    ++ concat (map (λ d, [TAB] ++ toString (start region d)
                         ++ [TAB] ++ toString (extent region d))
                 (seq 0 (m_ImageDimension region `max` 5)))
    ++ [LF]
  ∧ (TAB ∉ m_FileName →
     tabs (Read_command m_FileName region)
     = 1 + 2 * (m_ImageDimension region `max` 5)).
Proof.
  assert (Read_command m_FileName region
          = str "read" ++ [TAB] ++ m_FileName
            ++ concat (map (λ d, [TAB] ++ toString (start region d)
                                 ++ [TAB] ++ toString (extent region d))
                         (seq 0 (m_ImageDimension region `max` 5)))
            ++ [LF]) as Hcommand.
  { unfold Read_command.
    rewrite (fold_left_append (λ _, [TAB] ++ str "0" ++ [TAB] ++ str "1")).
    rewrite (fold_left_append
               (λ d, [TAB] ++ toString (GetIndex region d)
                     ++ [TAB] ++ toString (GetSize region d))).
    replace (m_ImageDimension region `max` 5)
      with (m_ImageDimension region + (5 - m_ImageDimension region)) by lia.
    rewrite seq_app, map_app, concat_app. cbn [Nat.add].
    rewrite <- !app_assoc. do 3 f_equal.
    f_equal; [| f_equal]; f_equal; apply map_ext_in; intros d Hd%in_seq;
      unfold start, extent.
    - by rewrite (proj2 (Nat.ltb_lt _ _)) by lia.
    - by rewrite (proj2 (Nat.ltb_ge _ _)) by lia. }
  split; [exact Hcommand |].
  intros Hname. rewrite Hcommand, !tabs_app.
  rewrite (tabs_concat_map _ _ 2), length_seq.
  - rewrite (tabs_none m_FileName) by done. simpl. lia.
  - intros d. rewrite !tabs_app, !tabs_toString. done.
Qed.

Lemma Read_command_axes_plane :
  tabs (Read_command (str "a.tif")
          {| m_ImageDimension := 2; m_Index := [0; 0]%Z; m_Size := [10; 20]%Z |})
  = 1 + 2 * (2 `max` 5).
Proof.
  apply (Read_command_axes (str "a.tif")
           {| m_ImageDimension := 2; m_Index := [0; 0]%Z; m_Size := [10; 20]%Z |}).
  apply (bool_decide_unpack _). vm_compute. exact I.
Defined.

Lemma Write_axis_command region regionDim command planes dim :
  (Write_axis region regionDim (command, planes) dim).1
  = command
    ++ toString (if dim <? regionDim then to_int (GetIndex region dim) else 0%Z)
    ++ [TAB]
    ++ toString (if dim <? regionDim then to_int (GetSize region dim) else 1%Z)
    ++ [TAB].
Proof.
  unfold Write_axis. destruct (dim <? regionDim); [| done].
  by destruct ((dim =? cIndex) || (dim =? zIndex) || (dim =? tIndex)).
Qed.

Lemma Write_axes_fold region regionDim axes : ∀ command planes,
  (fold_left (Write_axis region regionDim) axes (command, planes)).1
  = command
    ++ concat (map (λ dim,
                      toString (if dim <? regionDim
                                then to_int (GetIndex region dim) else 0%Z)
                      ++ [TAB]
                      ++ toString (if dim <? regionDim
                                   then to_int (GetSize region dim) else 1%Z)
                      ++ [TAB]) axes).
Proof.
  induction axes as [|dim axes IH]; intros command planes;
    cbn [fold_left map concat].
  - by rewrite app_nil_r.
  - pose proof (Write_axis_command region regionDim command planes dim) as Hdim.
    destruct (Write_axis region regionDim (command, planes) dim) as [c n].
    cbn [fst] in Hdim. rewrite IH, Hdim. by rewrite <- !app_assoc.
Qed.

(** X14.  To the command of [Write] the axis loop always adds the starts
    and extents of exactly five axes, ten fields each closed by a tab,
    whatever the dimension of the region: axes that the region lacks are
    written as start 0, extent 1, and axes of the region beyond the fifth
    are left out. *)
Theorem Write_axes_five (region : ImageIORegion) (command : list ascii) :
  (Write_axes region command).1
  = command
    ++ concat (map (λ d, toString (to_int (start region d)) ++ [TAB]
                         ++ toString (to_int (extent region d)) ++ [TAB])
                 (seq 0 5))
  ∧ tabs (Write_axes region command).1 = tabs command + 10.
Proof.
  assert ((Write_axes region command).1
          = command
            ++ concat (map (λ d, toString (to_int (start region d)) ++ [TAB]
                                 ++ toString (to_int (extent region d)) ++ [TAB])
                         (seq 0 5))) as Hcommand.
  { unfold Write_axes. rewrite Write_axes_fold. f_equal. f_equal.
    apply map_ext. intros d. unfold start, extent.
    by destruct (d <? m_ImageDimension region). }
  split; [exact Hcommand |].
  rewrite Hcommand, tabs_app, (tabs_concat_map _ _ 2); [done |].
  intros d. rewrite !tabs_app, !tabs_toString. done.
Qed.

(** ** [Read]: all of the region or nothing *)

Lemma stderr_bytes_cons e (pipe : list pipe_data) :
  stderr_bytes (e :: pipe) =
  match e with Pipe_STDERR d => d | _ => [] end ++ stderr_bytes pipe.
Proof. done. Qed.

Lemma Read_loop_done_inv pipe : ∀ filled junk errorMessage byteCount data' errorMessage',
  Read_loop pipe (filled ++ junk) (length filled) byteCount errorMessage
  = Read_done data' errorMessage' →
  ∃ taken rest junk',
    pipe = taken ++ rest
    ∧ Forall (λ e, is_abnormal e = false) taken
    ∧ data' = filled ++ stdout_bytes taken ++ junk'
    ∧ byteCount ≤ length filled + length (stdout_bytes taken)
    ∧ errorMessage' = errorMessage ++ stderr_bytes taken.
Proof.
  induction pipe as [|e pipe IH];
    intros filled junk errorMessage byteCount data' errorMessage'.
  - simpl. destruct (length filled <? byteCount) eqn:Hlt; [done |].
    apply Nat.ltb_ge in Hlt. intros [= <- <-].
    exists [], [], junk. split_and!; [done | done | done | simpl; lia |].
    by rewrite app_nil_r.
  - cbn [Read_loop]. destruct (length filled <? byteCount) eqn:Hlt.
    + destruct e as [pipedata|pipedata|]; [| |done].
      * rewrite memcpy_filled.
        replace (length filled + length pipedata)
          with (length (filled ++ pipedata)) by (by rewrite length_app).
        intros (taken & rest & junk' & -> & Hok & -> & Hcount & ->)%IH.
        exists (Pipe_STDOUT pipedata :: taken), rest, junk'.
        rewrite stdout_bytes_cons, stderr_bytes_cons.
        split_and!; [done | by constructor | by rewrite <- !app_assoc | | done].
        rewrite !length_app in *. lia.
      * intros (taken & rest & junk' & -> & Hok & -> & Hcount & ->)%IH.
        exists (Pipe_STDERR pipedata :: taken), rest, junk'.
        rewrite stdout_bytes_cons, stderr_bytes_cons.
        split_and!; [done | by constructor | done | done |].
        by rewrite app_assoc.
    + apply Nat.ltb_ge in Hlt. intros [= <- <-].
      exists [], (e :: pipe), junk.
      split_and!; [done | done | done | simpl; lia |].
      by rewrite app_nil_r.
Qed.

(** X13.  [Read] gives no partial result: when its loop ends normally, the
    answers it took carry at least the byte count of the region (pixel
    size times number of pixels) on standard output, none of them was an
    abnormal signal, and the buffer starts with exactly those bytes, in
    order. *)
Theorem Read_all_or_nothing (pixelSize numberOfPixels : nat)
    (pipe : list pipe_data) (data data' errorMessage : list ascii) :
  Read_transfer pixelSize numberOfPixels pipe data
  = Read_done data' errorMessage →
  ∃ taken rest junk,
    pipe = taken ++ rest
    ∧ Forall (λ e, is_abnormal e = false) taken
    ∧ data' = stdout_bytes taken ++ junk
    ∧ pixelSize * numberOfPixels ≤ length (stdout_bytes taken)
    ∧ errorMessage = stderr_bytes taken.
Proof.
  unfold Read_transfer. intros Hdone.
  destruct (Read_loop_done_inv pipe [] data [] _ _ _ Hdone)
    as (taken & rest & junk & Hpipe & Hok & Hdata & Hcount & Herr).
  by exists taken, rest, junk.
Qed.

Lemma Read_all_or_nothing_two_pixels :
  ∃ taken rest junk,
    [Pipe_STDOUT (str "ab"); Pipe_STDOUT (str "cd"); Pipe_STDOUT (str "ef")]
    = taken ++ rest
    ∧ Forall (λ e, is_abnormal e = false) taken
    ∧ str "abcd" = stdout_bytes taken ++ junk
    ∧ 2 * 2 ≤ length (stdout_bytes taken)
    ∧ [] = stderr_bytes taken.
Proof.
  apply (Read_all_or_nothing 2 2
           [Pipe_STDOUT (str "ab"); Pipe_STDOUT (str "cd"); Pipe_STDOUT (str "ef")]
           (str "....")).
  reflexivity.
Defined.

(** X15.  When the worker breaks the transfer of [Read], [Read] throws
    after a teardown that leaves the bridge without a process and with the
    pipe end closed; in every other case [Read] ends as its transfer loop
    ends and leaves the bridge as [CreateJavaProcess] left it. *)
Theorem Read_broken (r : spawn_report) (observed : ProcessState)
    (pipe : list pipe_data) (io : SCIFIOImageIO) (m_FileName : list ascii)
    (region : ImageIORegion) (pixelSize : nat) (data : list ascii) :
  (CreateJavaProcess r io).1.2 = Returned () →
  match Read_transfer pixelSize (GetNumberOfPixels region) pipe data with
  | Read_thrown msg =>
      (Read r observed pipe io m_FileName region pixelSize data).1.2
      = Read_thrown msg
      ∧ (Read r observed pipe io m_FileName region pixelSize data).2
        = {| m_Process := None; m_Pipe_1 := Pipe_closed |}
  | result =>
      (Read r observed pipe io m_FileName region pixelSize data).1.2 = result
      ∧ (Read r observed pipe io m_FileName region pixelSize data).2
        = (CreateJavaProcess r io).2
  end.
Proof.
  intros Hstarted.
  pose proof (CreateJavaProcess_returned r io Hstarted) as Hhandle.
  unfold Read. destruct (CreateJavaProcess r io) as [[calls started] io'].
  cbn [fst snd] in *. subst started.
  destruct (Read_transfer pixelSize (GetNumberOfPixels region) pipe data);
    [done | | done].
  unfold destroy_broken, DestroyJavaProcess. rewrite Hhandle. done.
Qed.

Lemma Read_broken_at_once :
  let r := {| spawn_state := State_Executing; exit_value := 0;
              error_string := []; exception_string := [] |} in
  let region := {| m_ImageDimension := 2; m_Index := [0; 0]%Z;
                   m_Size := [2; 2]%Z |} in
  (Read r State_Exited [Pipe_STDOUT (str "ab"); Pipe_other] constructed
     (str "a.tif") region 1 (str "....")).1.2
  = Read_thrown (exited_abnormally "read" [])
  ∧ (Read r State_Exited [Pipe_STDOUT (str "ab"); Pipe_other] constructed
       (str "a.tif") region 1 (str "....")).2
    = {| m_Process := None; m_Pipe_1 := Pipe_closed |}.
Proof.
  intros r region.
  apply (Read_broken r State_Exited [Pipe_STDOUT (str "ab"); Pipe_other]
           constructed (str "a.tif") region 1 (str "....")).
  reflexivity.
Defined.

(** ** The lookup-table part of the command *)

(** X16.  Without a [UseLUT] entry in the dictionary (as for an image that
    was not read through the bridge), [Write] adds the single field 0 for
    the lookup table, and does not fail. *)
Theorem Write_lut_absent (dict : MetaDataDictionary) (command : list ascii) :
  dict !! str "UseLUT" = None →
  Write_lut dict command = Returned (command ++ str "0" ++ [TAB]).
Proof.
  intros Hkey. unfold Write_lut, GetTypedMetaData_bool, ExposeMetaData.
  rewrite Hkey. done.
Qed.

Lemma Write_lut_absent_empty :
  Write_lut ∅ (str "write") = Returned (str "write" ++ str "0" ++ [TAB]).
Proof. apply (Write_lut_absent ∅ (str "write")). done. Defined.

(** X17.  The lookup-table loop throws the conversion error as soon as the
    dictionary lacks the red value of an entry below the declared length,
    for a table of any depth. *)
Theorem Write_lut_entries_missing (dict : MetaDataDictionary) (LUTBits : Z)
    (n : nat) : ∀ (j : nat) (i : Z) (command : list ascii),
  j < n →
  dict !! (str "LUTR" ++ toString (i + Z.of_nat j)) = None →
  is_thrown (Write_lut_entries dict LUTBits i n command) = true.
Proof.
  induction n as [|n IH]; intros j i command Hj Hkey; [lia |].
  cbn [Write_lut_entries].
  destruct j as [|j].
  - rewrite Z.add_0_r in Hkey.
    unfold GetTypedMetaData_int, GetTypedMetaData_short, ExposeMetaData.
    rewrite Hkey. by destruct (LUTBits =? 8)%Z.
  - assert (dict !! (str "LUTR" ++ toString (i + 1 + Z.of_nat j)) = None)
      as Hkey' by (by replace (i + 1 + Z.of_nat j)%Z with (i + Z.of_nat (S j))%Z by lia).
    destruct (LUTBits =? 8)%Z.
    + destruct (GetTypedMetaData_int dict (str "LUTR" ++ toString i));
        cbn [mbind outcome_bind]; [| done].
      destruct (GetTypedMetaData_int dict (str "LUTG" ++ toString i));
        cbn [mbind outcome_bind]; [| done].
      destruct (GetTypedMetaData_int dict (str "LUTB" ++ toString i));
        cbn [mbind outcome_bind]; [| done].
      apply (IH j); [lia | done].
    + destruct (GetTypedMetaData_short dict (str "LUTR" ++ toString i));
        cbn [mbind outcome_bind]; [| done].
      destruct (GetTypedMetaData_short dict (str "LUTG" ++ toString i));
        cbn [mbind outcome_bind]; [| done].
      destruct (GetTypedMetaData_short dict (str "LUTB" ++ toString i));
        cbn [mbind outcome_bind]; [| done].
      apply (IH j); [lia | done].
Qed.

Lemma Write_lut_entries_missing_second :
  is_thrown (Write_lut_entries lut8 8 0 2 []) = true.
Proof.
  apply (Write_lut_entries_missing lut8 8 2 1 0%Z []).
  - lia.
  - vm_compute. reflexivity.
Defined.

Lemma Write_lut_entries_tabs_lut16 :
  tabs (str "1" ++ [TAB] ++ str "2" ++ [TAB] ++ str "3" ++ [TAB] ++ [TAB])
  = tabs [] + (if (16 =? 8)%Z then 3 else 4) * 1.
Proof.
  apply (Write_lut_entries_tabs
           (list_to_map [(str "LUTR0", str "1"); (str "LUTG0", str "2");
                         (str "LUTB0", str "3")])
           16 1 0%Z []).
  vm_compute. reflexivity.
Defined.

Lemma numPlanes_from_origin_stack :
  numPlanes {| m_ImageDimension := 4; m_Index := [2; 3; 0; 0]%Z;
               m_Size := [4; 4; 3; 2]%Z |}
  = planes_of_extents {| m_ImageDimension := 4; m_Index := [2; 3; 0; 0]%Z;
                         m_Size := [4; 4; 3; 2]%Z |}.
Proof.
  apply numPlanes_from_origin.
  - intros d Hd Hdim. cbn in Hdim.
    assert (d = 2 ∨ d = 3) as [-> | ->] by lia; by vm_compute.
  - by vm_compute.
Defined.

(** ** The plane handshake *)

Section plane_handshake.
Implicit Types (acks : list (list pipe_data)) (rest : list pipe_data).
Implicit Types (data errorMessage : list ascii) (sent : list (list ascii)).

Lemma chunks_per_plane_none m :
  chunks_per_plane m = 0 → (m ≤ 0)%Z.
Proof.
  unfold chunks_per_plane, pipelength. intros Hnone.
  Z.to_euclidean_division_equations. lia.
Qed.

Lemma chunks_per_plane_more m n :
  chunks_per_plane m = S n →
  (0 < m)%Z
  ∧ chunks_per_plane
      (m - (if (pipelength <? m)%Z then pipelength else m)) = n.
Proof.
  unfold chunks_per_plane, pipelength. intros Hsome.
  destruct (10000 <? m)%Z eqn:Hbig;
    [apply Z.ltb_lt in Hbig | apply Z.ltb_ge in Hbig];
    Z.to_euclidean_division_equations; lia.
Qed.

Lemma stderr_bytes_app (a b : list pipe_data) :
  stderr_bytes (a ++ b) = stderr_bytes a ++ stderr_bytes b.
Proof. unfold stderr_bytes. by rewrite map_app, concat_app. Qed.

(** The chunks of one plane, each acknowledged by one frame, from a
    buffer that holds what is left of the plane. *)
Lemma Write_plane_acked acks : ∀ fuel rest data bytesRead bytesPerPlane
    errorMessage sent,
  Forall one_frame acks →
  length acks = chunks_per_plane (bytesPerPlane - bytesRead) →
  Z.to_nat (bytesPerPlane - bytesRead) ≤ fuel →
  Z.to_nat (bytesPerPlane - bytesRead) ≤ length data →
  ∃ chunks,
    Write_plane fuel (concat acks ++ rest) data bytesRead bytesPerPlane
      errorMessage sent
    = (Hand_done (sent ++ chunks)
         (errorMessage ++ stderr_bytes (concat acks)) rest,
       drop (Z.to_nat (bytesPerPlane - bytesRead)) data)
    ∧ concat chunks = take (Z.to_nat (bytesPerPlane - bytesRead)) data
    ∧ Forall (λ c, (Z.of_nat (length c) ≤ pipelength)%Z) chunks
    ∧ length chunks = length acks.
Proof.
  induction acks as [|ack acks IH];
    intros fuel rest data bytesRead bytesPerPlane errorMessage sent
      Hacks Hlen Hfuel Hbuffer.
  - symmetry in Hlen. apply chunks_per_plane_none in Hlen.
    exists []. replace (Z.to_nat (bytesPerPlane - bytesRead)) with 0 by lia.
    assert ((bytesRead <? bytesPerPlane)%Z = false) as Hdone
      by (apply Z.ltb_ge; lia).
    split_and!; [| done | done | done].
    destruct fuel; simpl; rewrite Hdone; by rewrite !app_nil_r.
  - symmetry in Hlen. cbn [length] in Hlen.
    apply chunks_per_plane_more in Hlen as [Hpos Hlen].
    apply Forall_cons in Hacks as [Hack Hacks].
    destruct fuel as [|fuel]; [lia |].
    cbn [Write_plane].
    assert ((bytesRead <? bytesPerPlane)%Z = true) as -> by (apply Z.ltb_lt; lia).
    set (bytesToRead :=
           if (pipelength <? bytesPerPlane - bytesRead)%Z then pipelength
           else (bytesPerPlane - bytesRead)%Z) in *.
    assert (0 < bytesToRead ≤ 10000 ∧ bytesToRead ≤ bytesPerPlane - bytesRead)%Z
      as Hchunk.
    { subst bytesToRead. unfold pipelength.
      destruct (10000 <? bytesPerPlane - bytesRead)%Z eqn:Hbig;
        [apply Z.ltb_lt in Hbig | apply Z.ltb_ge in Hbig]; lia. }
    assert ((length data <? Z.to_nat bytesToRead) = false) as ->
      by (apply Nat.ltb_ge; lia).
    change (concat (ack :: acks)) with (ack ++ concat acks).
    rewrite <- app_assoc.
    destruct (Hack (concat acks ++ rest) errorMessage) as [imgInfo ->].
    destruct (IH fuel rest (drop (Z.to_nat bytesToRead) data)
                (bytesRead + bytesToRead)%Z bytesPerPlane
                (errorMessage ++ stderr_bytes ack)
                (sent ++ [take (Z.to_nat bytesToRead) data]))
      as (chunks & Hplane & Hconcat & Hsizes & Hcount).
    { done. }
    { rewrite <- Hlen. f_equal. lia. }
    { lia. }
    { rewrite length_drop. lia. }
    exists (take (Z.to_nat bytesToRead) data :: chunks).
    rewrite Hplane. split_and!.
    + rewrite <- !app_assoc, stderr_bytes_app, drop_drop. cbn [app].
      do 2 f_equal. lia.
    + cbn [concat]. rewrite Hconcat, take_take_drop. f_equal. lia.
    + constructor; [| done]. rewrite length_take. unfold pipelength. lia.
    + cbn [length]. by rewrite Hcount.
Qed.
End plane_handshake.

Lemma Write_planes_all_acked
    (plane_acks : list (list (list pipe_data) * list pipe_data)) :
  ∀ (rest : list pipe_data) (data : list ascii) (bytesPerPlane : Z)
    (errorMessage : list ascii) (sent : list (list ascii)),
  Forall (λ pa, Forall one_frame pa.1
                ∧ length pa.1 = chunks_per_plane bytesPerPlane
                ∧ one_frame pa.2) plane_acks →
  length plane_acks * Z.to_nat bytesPerPlane ≤ length data →
  ∃ chunks errorMessage',
    Write_planes (length plane_acks)
      (concat (map (λ pa, concat pa.1 ++ pa.2) plane_acks) ++ rest)
      data bytesPerPlane errorMessage sent
    = Hand_done (sent ++ chunks) errorMessage' rest
    ∧ concat chunks
      = take (length plane_acks * Z.to_nat bytesPerPlane) data
    ∧ Forall (λ c, (Z.of_nat (length c) ≤ pipelength)%Z) chunks
    ∧ length chunks = length plane_acks * chunks_per_plane bytesPerPlane.
Proof.
  induction plane_acks as [|[acks ack] plane_acks IH];
    intros rest data bytesPerPlane errorMessage sent Hacks Hbuffer.
  - exists [], errorMessage. cbn. by rewrite app_nil_r.
  - apply Forall_cons in Hacks as [(Hchunks & Hcount & Hplane) Hacks].
    cbn [fst snd] in *. cbn [length Write_planes map concat fst snd].
    cbn [length] in Hbuffer.
    rewrite <- !app_assoc.
    destruct (Write_plane_acked acks (Z.to_nat bytesPerPlane)
                (ack ++ concat (map (λ pa, concat pa.1 ++ pa.2) plane_acks)
                 ++ rest)
                data 0 bytesPerPlane errorMessage sent)
      as (chunks1 & Hfirst & Hconcat1 & Hsizes1 & Hcount1).
    { done. }
    { by rewrite Z.sub_0_r. }
    { rewrite Z.sub_0_r. lia. }
    { rewrite Z.sub_0_r. lia. }
    rewrite Z.sub_0_r in *.
    destruct (Hplane (concat (map (λ pa, concat pa.1 ++ pa.2) plane_acks)
                      ++ rest)
                (errorMessage ++ stderr_bytes (concat acks)))
      as [imgInfo Hwait].
    destruct (IH rest (drop (Z.to_nat bytesPerPlane) data) bytesPerPlane
                ((errorMessage ++ stderr_bytes (concat acks))
                 ++ stderr_bytes ack)
                (sent ++ chunks1) Hacks)
      as (chunks2 & errorMessage' & Hrest & Hconcat2 & Hsizes2 & Hcount2).
    { rewrite length_drop. lia. }
    exists (chunks1 ++ chunks2), errorMessage'.
    rewrite Hfirst, Hwait, Hrest.
    split_and!.
    + by rewrite <- app_assoc.
    + rewrite concat_app, Hconcat1, Hconcat2, take_take_drop. done.
    + by apply Forall_app.
    + rewrite length_app, Hcount1, Hcount2, Hcount. lia.
Qed.

(** X19.  When the buffer holds at least [planes * bytesPerPlane] bytes and
    the worker acknowledges every chunk and every plane with a frame of
    its own, the handshake ends normally after it has written, plane after
    plane and in order, the first [planes * bytesPerPlane] bytes of the
    buffer, in chunks of at most 10000 bytes, [chunks_per_plane] chunks to
    a plane, without reading past the end of the buffer; it has then taken
    one frame for each chunk and one for each plane, and not one answer
    more. *)
Theorem Write_planes_acked
    (plane_acks : list (list (list pipe_data) * list pipe_data))
    (rest : list pipe_data) (data : list ascii) (bytesPerPlane : Z)
    (errorMessage : list ascii) (sent : list (list ascii)) :
  Forall (λ pa, Forall one_frame pa.1
                ∧ length pa.1 = chunks_per_plane bytesPerPlane
                ∧ one_frame pa.2) plane_acks →
  length plane_acks * Z.to_nat bytesPerPlane ≤ length data →
  ∃ chunks errorMessage',
    Write_planes (length plane_acks)
      (concat (map (λ pa, concat pa.1 ++ pa.2) plane_acks) ++ rest)
      data bytesPerPlane errorMessage sent
    = Hand_done (sent ++ chunks) errorMessage' rest
    ∧ concat chunks
      = take (length plane_acks * Z.to_nat bytesPerPlane) data
    ∧ length (concat chunks) = length plane_acks * Z.to_nat bytesPerPlane
    ∧ Forall (λ c, (Z.of_nat (length c) ≤ pipelength)%Z) chunks
    ∧ length chunks = length plane_acks * chunks_per_plane bytesPerPlane.
Proof.
  intros Hacks Hbuffer.
  destruct (Write_planes_all_acked plane_acks rest data bytesPerPlane
              errorMessage sent Hacks Hbuffer)
    as (chunks & errorMessage' & Hrun & Hconcat & Hsizes & Hcount).
  exists chunks, errorMessage'. split_and!; try done.
  rewrite Hconcat, length_take. lia.
Qed.

Lemma Write_planes_acked_two_planes :
  let ack := [Pipe_STDOUT (str "done" ++ [LF; LF])] in
  ∃ chunks errorMessage',
    Write_planes (length [([ack], ack); ([ack], ack)])
      (concat (map (λ pa, concat pa.1 ++ pa.2) [([ack], ack); ([ack], ack)])
       ++ [])
      (str "abcdef") 3 [] []
    = Hand_done ([] ++ chunks) errorMessage' []
    ∧ concat chunks
      = take (length [([ack], ack); ([ack], ack)] * Z.to_nat 3) (str "abcdef")
    ∧ length (concat chunks)
      = length [([ack], ack); ([ack], ack)] * Z.to_nat 3
    ∧ Forall (λ c, (Z.of_nat (length c) ≤ pipelength)%Z) chunks
    ∧ length chunks
      = length [([ack], ack); ([ack], ack)] * chunks_per_plane 3.
Proof.
  intros ack.
  assert (one_frame ack) as Hack.
  { intros rest errorMessage. eexists. cbn. by rewrite app_nil_r. }
  apply (Write_planes_acked [([ack], ack); ([ack], ack)] [] (str "abcdef") 3
           [] []).
  - repeat constructor; exact Hack.
  - vm_compute. lia.
Defined.

(** What a plane has written lies within the buffer, whatever the worker
    answers. *)
Lemma Write_plane_prefix fuel : ∀ (pipe : list pipe_data) (buffer : list ascii)
    (k : nat) (bytesRead bytesPerPlane : Z) (errorMessage : list ascii)
    (sent : list (list ascii)),
  concat sent = take k buffer →
  k ≤ length buffer →
  Z.to_nat (bytesPerPlane - bytesRead) ≤ fuel →
  (Write_plane fuel pipe (drop k buffer) bytesRead bytesPerPlane
     errorMessage sent).1 ≠ Hand_out_of_fuel
  ∧ ∃ k',
      k' ≤ length buffer
      ∧ concat (sent_of (Write_plane fuel pipe (drop k buffer) bytesRead
                           bytesPerPlane errorMessage sent).1)
        = take k' buffer
      ∧ (Write_plane fuel pipe (drop k buffer) bytesRead bytesPerPlane
           errorMessage sent).2 = drop k' buffer.
Proof.
  induction fuel as [|fuel IH];
    intros pipe buffer k bytesRead bytesPerPlane errorMessage sent Hsent Hk
      Hfuel;
    cbn [Write_plane];
    destruct (bytesRead <? bytesPerPlane)%Z eqn:Hmore;
    try (split; [done | by exists k]).
  - apply Z.ltb_lt in Hmore. lia.
  - apply Z.ltb_lt in Hmore.
    set (bytesToRead :=
           if (pipelength <? bytesPerPlane - bytesRead)%Z then pipelength
           else (bytesPerPlane - bytesRead)%Z) in *.
    assert (0 < bytesToRead)%Z as Hchunk.
    { subst bytesToRead. unfold pipelength.
      destruct (10000 <? bytesPerPlane - bytesRead)%Z; lia. }
    destruct (length (drop k buffer) <? Z.to_nat bytesToRead) eqn:Hpast;
      [split; [done | by exists k] |].
    apply Nat.ltb_ge in Hpast. rewrite length_drop in Hpast.
    assert (concat (sent ++ [take (Z.to_nat bytesToRead) (drop k buffer)])
            = take (k + Z.to_nat bytesToRead) buffer) as Hsent'.
    { rewrite concat_app, Hsent. cbn [concat]. rewrite app_nil_r.
      apply take_take_drop. }
    rewrite drop_drop.
    destruct (wait_frame pipe [] errorMessage) as [imgInfo e pipe'|e|].
    + apply IH; [done | lia | lia].
    + split; [done |]. exists (k + Z.to_nat bytesToRead).
      split_and!; [lia | done | done].
    + split; [done |]. exists (k + Z.to_nat bytesToRead).
      split_and!; [lia | done | done].
Qed.

Lemma Write_planes_prefix planes : ∀ (pipe : list pipe_data)
    (buffer : list ascii) (k : nat) (bytesPerPlane : Z)
    (errorMessage : list ascii) (sent : list (list ascii)),
  concat sent = take k buffer →
  k ≤ length buffer →
  Write_planes planes pipe (drop k buffer) bytesPerPlane errorMessage sent
  ≠ Hand_out_of_fuel
  ∧ ∃ k',
      k' ≤ length buffer
      ∧ concat (sent_of (Write_planes planes pipe (drop k buffer)
                           bytesPerPlane errorMessage sent))
        = take k' buffer.
Proof.
  induction planes as [|planes IH];
    intros pipe buffer k bytesPerPlane errorMessage sent Hsent Hk;
    cbn [Write_planes]; [split; [done | by exists k] |].
  destruct (Write_plane_prefix (Z.to_nat bytesPerPlane) pipe buffer k 0
              bytesPerPlane errorMessage sent Hsent Hk ltac:(lia))
    as (Hfuel & k' & Hk' & Hsent' & Hdata).
  destruct (Write_plane (Z.to_nat bytesPerPlane) pipe (drop k buffer) 0
              bytesPerPlane errorMessage sent) as [stopped data'].
  cbn [fst snd] in *. subst data'.
  destruct stopped as [sent' e pipe'|sent' e|sent'|sent'|];
    cbn [sent_of] in *;
    [| split; [done | by exists k'] .. | done].
  destruct (wait_frame pipe' [] e) as [imgInfo e' pipe''|e'|].
  - by apply IH.
  - split; [done | by exists k'].
  - split; [done | by exists k'].
Qed.

(** A plane whose bytes the buffer holds is written without a read past
    the end, and leaves the bytes of the planes to come. *)
Lemma Write_plane_within fuel : ∀ (pipe : list pipe_data) (data : list ascii)
    (bytesRead bytesPerPlane : Z) (errorMessage : list ascii)
    (sent : list (list ascii)),
  Z.to_nat (bytesPerPlane - bytesRead) ≤ length data →
  (∀ sent', (Write_plane fuel pipe data bytesRead bytesPerPlane errorMessage
               sent).1 ≠ Hand_past_buffer sent')
  ∧ length data - Z.to_nat (bytesPerPlane - bytesRead)
    ≤ length (Write_plane fuel pipe data bytesRead bytesPerPlane errorMessage
                sent).2.
Proof.
  induction fuel as [|fuel IH];
    intros pipe data bytesRead bytesPerPlane errorMessage sent Hbuffer;
    cbn [Write_plane];
    destruct (bytesRead <? bytesPerPlane)%Z eqn:Hmore;
    try (split; [done | cbn [snd]; lia]).
  apply Z.ltb_lt in Hmore.
  set (bytesToRead :=
         if (pipelength <? bytesPerPlane - bytesRead)%Z then pipelength
         else (bytesPerPlane - bytesRead)%Z) in *.
  assert (0 < bytesToRead ≤ bytesPerPlane - bytesRead)%Z as Hchunk.
  { subst bytesToRead. unfold pipelength.
    destruct (10000 <? bytesPerPlane - bytesRead)%Z eqn:Hbig;
      [apply Z.ltb_lt in Hbig | apply Z.ltb_ge in Hbig]; lia. }
  assert ((length data <? Z.to_nat bytesToRead) = false) as ->
    by (apply Nat.ltb_ge; lia).
  destruct (wait_frame pipe [] errorMessage) as [imgInfo e pipe'|e|].
  - destruct (IH pipe' (drop (Z.to_nat bytesToRead) data)
                (bytesRead + bytesToRead)%Z bytesPerPlane e
                (sent ++ [take (Z.to_nat bytesToRead) data]))
      as [Hnever Hleft].
    { rewrite length_drop. lia. }
    split; [exact Hnever |].
    rewrite length_drop in Hleft. lia.
  - split; [done |]. cbn [snd]. rewrite length_drop. lia.
  - split; [done |]. cbn [snd]. rewrite length_drop. lia.
Qed.

Lemma Write_planes_within planes : ∀ (pipe : list pipe_data)
    (data : list ascii) (bytesPerPlane : Z) (errorMessage : list ascii)
    (sent sent' : list (list ascii)),
  planes * Z.to_nat bytesPerPlane ≤ length data →
  Write_planes planes pipe data bytesPerPlane errorMessage sent
  ≠ Hand_past_buffer sent'.
Proof.
  induction planes as [|planes IH];
    intros pipe data bytesPerPlane errorMessage sent sent' Hbuffer;
    cbn [Write_planes]; [done |].
  destruct (Write_plane_within (Z.to_nat bytesPerPlane) pipe data 0
              bytesPerPlane errorMessage sent) as [Hnever Hleft].
  { rewrite Z.sub_0_r. lia. }
  rewrite Z.sub_0_r in Hleft.
  destruct (Write_plane (Z.to_nat bytesPerPlane) pipe data 0 bytesPerPlane
              errorMessage sent) as [stopped data'].
  cbn [fst snd] in *.
  destruct stopped as [sent1 e pipe'|sent1 e|sent1|sent1|]; try done.
  destruct (wait_frame pipe' [] e) as [imgInfo e' pipe''|e'|]; try done.
  apply IH. lia.
Qed.

(** X20.  However the worker behaves, the handshake never stops for lack
    of fuel, and the chunks it has written when it stops -- normally, on a
    break, waiting, or before a write that would read past the end of the
    buffer -- put end to end, are a prefix of the buffer: within the
    buffer it skips nothing, repeats nothing and changes no order.  When
    the buffer holds [planes * bytesPerPlane] bytes, no write reads past
    its end. *)
Theorem Write_planes_sends_prefix (planes : nat) (pipe : list pipe_data)
    (buffer : list ascii) (bytesPerPlane : Z) (errorMessage : list ascii) :
  Write_planes planes pipe buffer bytesPerPlane errorMessage []
  ≠ Hand_out_of_fuel
  ∧ (∃ k,
       k ≤ length buffer
       ∧ concat (sent_of (Write_planes planes pipe buffer bytesPerPlane
                            errorMessage []))
         = take k buffer)
  ∧ (planes * Z.to_nat bytesPerPlane ≤ length buffer →
     ∀ sent,
       Write_planes planes pipe buffer bytesPerPlane errorMessage []
       ≠ Hand_past_buffer sent).
Proof.
  destruct (Write_planes_prefix planes pipe buffer 0 bytesPerPlane
              errorMessage [] eq_refl ltac:(lia)) as [Hfuel Hprefix].
  split_and!; [exact Hfuel | exact Hprefix |].
  intros Hbuffer sent. by apply Write_planes_within.
Qed.

(** Two planes of three bytes from a buffer of six, with a worker that
    breaks off after the first chunk: no read past the end. *)
Lemma Write_planes_sends_prefix_six :
  Write_planes 2 [Pipe_STDOUT (str "done" ++ [LF; LF]); Pipe_other]
    (str "abcdef") 3 [] []
  ≠ Hand_past_buffer [str "abc"].
Proof.
  destruct (Write_planes_sends_prefix 2
              [Pipe_STDOUT (str "done" ++ [LF; LF]); Pipe_other]
              (str "abcdef") 3 []) as (_ & _ & Hwithin).
  apply Hwithin. vm_compute. lia.
Defined.

(** Where the worker announces more bytes per plane than the buffer holds,
    the first write already reads past the end of the buffer. *)
Example Write_planes_past_buffer :
  Write_planes 1 [Pipe_STDOUT (str "done" ++ [LF; LF])] (str "abcdef") 100
    [] []
  = Hand_past_buffer [].
Proof. reflexivity. Qed.

(** ** What [ReadImageInformation] sets *)

Lemma valueOfString_bool_value s : ∃ b, valueOfString_bool s = Returned b.
Proof.
  unfold valueOfString_bool.
  destruct (bool_numeric_attempt s) as [[res failed] unread].
  destruct failed; [| by eexists].
  destruct (bool_alpha_attempt s) as [[res' failed'] unread']. by eexists.
Qed.

(** Without a [PixelType] entry, the pass over the dictionary throws the
    missing-key error after a single setter call of its own, the one of
    the byte order; a dictionary that has no [LittleEndian] entry either
    sets big-endian. *)
Lemma set_from_dictionary_no_PixelType {C D : Type}
    (scifioToTIKComponentType : Z → C)
    (valueOfString_double : list ascii → outcome D)
    (dict : MetaDataDictionary) :
  dict !! str "PixelType" = None →
  ∃ b,
    GetTypedMetaData_bool dict (str "LittleEndian") = Returned b
    ∧ (dict !! str "LittleEndian" = None → b = false)
    ∧ set_from_dictionary scifioToTIKComponentType valueOfString_double dict
      = ([if b : bool then SetByteOrderToLittleEndian
          else SetByteOrderToBigEndian],
         Thrown (str "PixelType is not in the metadata dictionary!")).
Proof.
  intros Hkey.
  destruct (valueOfString_bool_value
              (ExposeMetaData dict (str "LittleEndian") [])) as [b Hb].
  destruct (valueOfString_bool_value
              (ExposeMetaData dict (str "Interleaved") [])) as [b' Hb'].
  exists b. split_and!; [done | |].
  - intros Hle. unfold ExposeMetaData in Hb. rewrite Hle in Hb.
    cbn in Hb. congruence.
  - unfold set_from_dictionary, HasKey.
    unfold GetTypedMetaData_bool at 1 2. rewrite Hb, Hb'. cbn [read_then].
    rewrite bool_decide_eq_false_2 by (rewrite Hkey; by intros [? ?]).
    done.
Qed.

(** X21.  When the worker is running, its frame has arrived and the
    dictionary filled from it has no [PixelType] entry,
    [ReadImageInformation] throws the missing-key error after exactly two
    setter calls: [SetNumberOfDimensions(5)], made before the dictionary is
    filled, and the one of the byte order (big-endian when there is no
    [LittleEndian] entry either).  All it has done to the outside is to
    start the worker, if need be, and to send the one command line; the
    dictionary keeps what the frame put into it. *)
Theorem ReadImageInformation_no_PixelType {C D : Type}
    (scifioToTIKComponentType : Z → C)
    (valueOfString_double : list ascii → outcome D)
    (r : spawn_report) (observed : ProcessState) (pipe rest : list pipe_data)
    (fuel : nat) (io : SCIFIOImageIO)
    (m_FileName imgInfo errorMessage : list ascii)
    (dict dict' : MetaDataDictionary) :
  (CreateJavaProcess r io).1.2 = Returned () →
  wait_frame pipe [] [] = Arrived imgInfo errorMessage rest →
  fill_dictionary fuel imgInfo dict = Some dict' →
  dict' !! str "PixelType" = None →
  ∃ b,
    GetTypedMetaData_bool dict' (str "LittleEndian") = Returned b
    ∧ (dict' !! str "LittleEndian" = None → b = false)
    ∧ ReadImageInformation scifioToTIKComponentType valueOfString_double
        r observed pipe fuel io m_FileName dict
      = (map Supervise (CreateJavaProcess r io).1.1
         ++ [Send (str "info" ++ [TAB] ++ m_FileName ++ [LF])],
         [SetNumberOfDimensions 5;
          if b : bool then SetByteOrderToLittleEndian
          else SetByteOrderToBigEndian],
         Some (Thrown (str "PixelType is not in the metadata dictionary!"),
               dict'),
         (CreateJavaProcess r io).2).
Proof.
  intros Hstarted Hwait Hfill Hkey.
  destruct (set_from_dictionary_no_PixelType scifioToTIKComponentType
              valueOfString_double dict' Hkey) as (b & Hb & Hbig & Hset).
  exists b. split_and!; [done | done |].
  unfold ReadImageInformation.
  destruct (CreateJavaProcess r io) as [[calls started] io'].
  cbn [fst snd] in *. subst started.
  by rewrite Hwait, Hfill, Hset.
Qed.

Lemma ReadImageInformation_no_PixelType_SizeX :
  let r := {| spawn_state := State_Executing; exit_value := 0;
              error_string := []; exception_string := [] |} in
  let pipe := [Pipe_STDOUT (frame_of_lines [str "SizeX"; str "4"])] in
  ∃ b,
    GetTypedMetaData_bool {[ str "SizeX" := str "4" ]} (str "LittleEndian")
    = Returned b
    ∧ (({[ str "SizeX" := str "4" ]} : MetaDataDictionary)
         !! str "LittleEndian" = None → b = false)
    ∧ ReadImageInformation (λ code : Z, code) valueOfString_long
        r State_Executing pipe 9 constructed (str "a.tif") ∅
      = (map Supervise (CreateJavaProcess r constructed).1.1
         ++ [Send (str "info" ++ [TAB] ++ str "a.tif" ++ [LF])],
         [SetNumberOfDimensions 5;
          if b : bool then SetByteOrderToLittleEndian
          else SetByteOrderToBigEndian],
         Some (Thrown (str "PixelType is not in the metadata dictionary!"),
               {[ str "SizeX" := str "4" ]}),
         (CreateJavaProcess r constructed).2).
Proof.
  intros r pipe.
  apply (ReadImageInformation_no_PixelType (λ code : Z, code)
           valueOfString_long r State_Executing pipe [] 9 constructed
           (str "a.tif") (frame_of_lines [str "SizeX"; str "4"]) [] ∅
           {[ str "SizeX" := str "4" ]}).
  - reflexivity.
  - reflexivity.
  - vm_compute. reflexivity.
  - vm_compute. reflexivity.
Defined.

Ltac read_entry v :=
  match goal with
  | |- context [read_then ?m _] =>
      let H := fresh "Hread" in
      destruct m as [v|] eqn:H; cbn [read_then call_then fst snd]; [| done]
  end.

(** X22.  When [ReadImageInformation] gets through the dictionary without
    throwing, the entries [PixelType], [SizeX], [SizeY], [SizeZ], [SizeT],
    [SizeC] and [RGBChannelCount] all read as integers, the pixel-type code
    is not the unknown one, and the setters were called in this order: byte
    order, component type, the five dimensions, the pixel type (scalar for
    one channel, RGB for three, vector otherwise), the channel count, the
    five spacings. *)
Theorem set_from_dictionary_returns {C D : Type}
    (scifioToTIKComponentType : Z → C)
    (valueOfString_double : list ascii → outcome D)
    (dict : MetaDataDictionary) (setters : list (setter C D)) :
  set_from_dictionary scifioToTIKComponentType valueOfString_double dict
  = (setters, Returned ()) →
  ∃ (b : bool) (code x y z t c channels : Z) (sx sy sz st sc : D),
    GetTypedMetaData_long dict (str "PixelType") = Returned code
    ∧ code ≠ UNKNOWNCOMPONENTTYPE
    ∧ GetTypedMetaData_long dict (str "SizeX") = Returned x
    ∧ GetTypedMetaData_long dict (str "SizeY") = Returned y
    ∧ GetTypedMetaData_long dict (str "SizeZ") = Returned z
    ∧ GetTypedMetaData_long dict (str "SizeT") = Returned t
    ∧ GetTypedMetaData_long dict (str "SizeC") = Returned c
    ∧ GetTypedMetaData_long dict (str "RGBChannelCount") = Returned channels
    ∧ setters
      = [if b then SetByteOrderToLittleEndian else SetByteOrderToBigEndian;
         SetComponentType (scifioToTIKComponentType code);
         SetDimensions 0 x; SetDimensions 1 y; SetDimensions 2 z;
         SetDimensions 3 t; SetDimensions 4 c;
         SetPixelType (if (channels =? 1)%Z then SCALAR
                       else if (channels =? 3)%Z then RGB else VECTOR);
         SetNumberOfComponents channels;
         SetSpacing 0 sx; SetSpacing 1 sy; SetSpacing 2 sz;
         SetSpacing 3 st; SetSpacing 4 sc].
Proof.
  unfold set_from_dictionary, set_dimensions, set_spacing.
  read_entry interleaved. read_entry b. cbn [call_then snd fst].
  destruct (HasKey dict (str "PixelType")); [| done].
  read_entry code.
  destruct (code =? UNKNOWNCOMPONENTTYPE)%Z eqn:Hcode; [done |].
  apply Z.eqb_neq in Hcode.
  cbn [call_then snd fst].
  read_entry x. read_entry y. read_entry z. read_entry t. read_entry c.
  read_entry channels.
  read_entry spx. read_entry spy. read_entry spz. read_entry spt.
  read_entry spc.
  intros [= <-].
  by eexists _, _, _, _, _, _, _, _, _, _, _, _, _.
Qed.

Lemma set_from_dictionary_returns_described :
  ∃ (b : bool) (code x y z t c channels : Z) (sx sy sz st sc : Z),
    GetTypedMetaData_long described (str "PixelType") = Returned code
    ∧ code ≠ UNKNOWNCOMPONENTTYPE
    ∧ GetTypedMetaData_long described (str "SizeX") = Returned x
    ∧ GetTypedMetaData_long described (str "SizeY") = Returned y
    ∧ GetTypedMetaData_long described (str "SizeZ") = Returned z
    ∧ GetTypedMetaData_long described (str "SizeT") = Returned t
    ∧ GetTypedMetaData_long described (str "SizeC") = Returned c
    ∧ GetTypedMetaData_long described (str "RGBChannelCount") = Returned channels
    ∧ (set_from_dictionary (λ code : Z, code) valueOfString_long described).1
      = [if b then SetByteOrderToLittleEndian else SetByteOrderToBigEndian;
         SetComponentType code;
         SetDimensions 0 x; SetDimensions 1 y; SetDimensions 2 z;
         SetDimensions 3 t; SetDimensions 4 c;
         SetPixelType (if (channels =? 1)%Z then SCALAR
                       else if (channels =? 3)%Z then RGB else VECTOR);
         SetNumberOfComponents channels;
         SetSpacing 0 sx; SetSpacing 1 sy; SetSpacing 2 sz;
         SetSpacing 3 st; SetSpacing 4 sc].
Proof.
  apply (set_from_dictionary_returns (λ code : Z, code) valueOfString_long
           described).
  vm_compute. reflexivity.
Defined.

(** ** [Write], from the reply to the last plane *)

Lemma linefeed_not_in_uint d : LF ∉ str (NilEmpty.string_of_uint d).
Proof.
  induction d; simpl; [apply not_elem_of_nil | ..];
    (apply not_elem_of_cons; split; [done | exact IHd]).
Qed.

Lemma linefeed_not_in_toString z : LF ∉ toString z.
Proof.
  unfold toString. destruct (Z.to_int z); simpl.
  - apply linefeed_not_in_uint.
  - apply not_elem_of_cons. split; [done | apply linefeed_not_in_uint].
Qed.

(** X23.  When the worker answers the command of [Write] with a frame
    whose first line is a number of bytes per plane that fits an [int],
    the buffer holds at least [numPlanes * bytesPerPlane] bytes, and the
    worker then acknowledges every chunk and every plane, [Write] writes
    the first [numPlanes * bytesPerPlane] bytes of the buffer, in order and
    in chunks of at most 10000 bytes, reads nothing past the end of the
    buffer, and ends normally. *)
Theorem Write_transfer_complete (region : ImageIORegion)
    (reply : list pipe_data) (more replyErrors : list ascii)
    (plane_acks : list (list (list pipe_data) * list pipe_data))
    (rest : list pipe_data) (buffer : list ascii) (bytesPerPlane : Z) :
  (INT_MIN ≤ bytesPerPlane ≤ INT_MAX)%Z →
  (∀ rest', wait_frame (reply ++ rest') [] []
            = Arrived (toString bytesPerPlane ++ LF :: more) replyErrors rest') →
  length plane_acks = planes_driven region →
  Forall (λ pa, Forall one_frame pa.1
                ∧ length pa.1 = chunks_per_plane bytesPerPlane
                ∧ one_frame pa.2) plane_acks →
  planes_driven region * Z.to_nat bytesPerPlane ≤ length buffer →
  ∃ chunks errorMessage,
    Write_transfer region
      (reply ++ concat (map (λ pa, concat pa.1 ++ pa.2) plane_acks) ++ rest)
      buffer
    = Returned (Hand_done chunks errorMessage rest)
    ∧ concat chunks
      = take (planes_driven region * Z.to_nat bytesPerPlane) buffer
    ∧ Forall (λ c, (Z.of_nat (length c) ≤ pipelength)%Z) chunks
    ∧ length chunks = planes_driven region * chunks_per_plane bytesPerPlane.
Proof.
  intros Hint Hreply Hplanes Hacks Hbuffer. rewrite <- Hplanes in Hbuffer.
  unfold Write_transfer. rewrite Hreply.
  rewrite first_line_cons by apply linefeed_not_in_toString.
  unfold valueOfString_int. rewrite valueOfString_integer_toString.
  assert (((INT_MIN <=? bytesPerPlane) && (bytesPerPlane <=? INT_MAX))%Z = true)
    as -> by (apply andb_true_iff; split; apply Z.leb_le; lia).
  cbn [mbind outcome_bind]. rewrite <- Hplanes.
  destruct (Write_planes_all_acked plane_acks rest buffer bytesPerPlane
              replyErrors [] Hacks Hbuffer)
    as (chunks & errorMessage' & Hrun & Hrest).
  exists chunks, errorMessage'. by rewrite Hrun.
Qed.

Lemma Write_transfer_complete_two_planes :
  let region := {| m_ImageDimension := 3; m_Index := [0; 0; 0]%Z;
                   m_Size := [3; 1; 2]%Z |} in
  let ack := [Pipe_STDOUT (str "done" ++ [LF; LF])] in
  let reply := [Pipe_STDOUT (str "3" ++ [LF; LF])] in
  ∃ chunks errorMessage,
    Write_transfer region
      (reply
       ++ concat (map (λ pa, concat pa.1 ++ pa.2) [([ack], ack); ([ack], ack)])
       ++ [])
      (str "abcdef")
    = Returned (Hand_done chunks errorMessage [])
    ∧ concat chunks = take (planes_driven region * Z.to_nat 3) (str "abcdef")
    ∧ Forall (λ c, (Z.of_nat (length c) ≤ pipelength)%Z) chunks
    ∧ length chunks = planes_driven region * chunks_per_plane 3.
Proof.
  intros region ack reply.
  assert (one_frame ack) as Hack.
  { intros rest errorMessage. eexists. cbn. by rewrite app_nil_r. }
  apply (Write_transfer_complete region reply [LF] []
           [([ack], ack); ([ack], ack)] [] (str "abcdef") 3).
  - by vm_compute.
  - intros rest'. reflexivity.
  - reflexivity.
  - repeat constructor; exact Hack.
  - vm_compute. lia.
Defined.
